(** * util::property — access policies and value semantics

    A shallow embedding of [include/property.h] (and of the owners declared in
    [tests/main.cc]).  The header is a class template; its behaviour has two
    sides, and both are modelled here:

    - a static side: the member declarations of [util::property], each with
      its access specifier, its [requires]-clause and its signature, together
      with the small part of C++ name lookup, overload resolution and access
      checking that decides whether an expression written by some caller is
      well-formed;
    - a dynamic side: the bodies of those members, run over a store in which
      every [data_storage] sub-object owns one cell (its [m_value]), with
      references as addresses into that store. *)

From Stdlib Require Import ZArith Lia.
From stdpp Require Import base decidable option list strings.

(* ===================================================================== *)
(** ** The fragment of C++ the header relies on *)
(* ===================================================================== *)

Module cpp.

(** Types as far as the header compares them: [std::is_same_v] is equality
    of types, and a cv-qualified type differs from the unqualified one. *)
Inductive type : Set :=
  | t_int
  | t_class (qualified_name : string)
  | t_const (t : type).

#[export] Instance type_eq_dec : EqDecision type.
Proof. solve_decision. Defined.

Definition is_same_v (T U : type) : bool := bool_decide (T = U).

Inductive access_specifier : Set := acc_public | acc_protected | acc_private.

#[export] Instance access_specifier_eq_dec : EqDecision access_specifier.
Proof. solve_decision. Defined.

(** Where an expression is written: in the implementation of the class
    named by [TOwner], which the property befriends (property.h:147,
    [friend TOwner;]), or anywhere else. *)
Inductive context : Set := in_owner | outside.

(** Access of an inherited member, seen as a member of the derived class
    ([None]: the member is inaccessible there). *)
Definition inherited (how a : access_specifier) : option access_specifier :=
  match a, how with
  | acc_private, _ => None
  | _, acc_private => Some acc_private
  | acc_protected, _ | _, acc_protected => Some acc_protected
  | acc_public, acc_public => Some acc_public
  end.

(** A friend of a class reaches all of its members; other code reaches the
    public ones. *)
Definition accessible (c : context) (a : access_specifier) : bool :=
  match a, c with
  | acc_public, _ => true
  | _, in_owner => true
  | _, outside => false
  end.

Inductive value_category : Set := lvalue | rvalue.

(** Names of the member functions the header declares. *)
Inductive function_name : Set :=
  | fn_constructor     (* property(...), data_storage(...) *)
  | fn_assignment      (* operator= *)
  | fn_conversion      (* operator TValue&, operator const TValue& *)
  | fn_value.          (* value *)

#[export] Instance function_name_eq_dec : EqDecision function_name.
Proof. solve_decision. Defined.

(** Parameter lists that occur, written relative to the class [C] that
    declares the member and its value type [T]. *)
Inductive parameter : Set :=
  | par_none                 (* ()            *)
  | par_T (has_default : bool) (* (T) or (T = T{}) *)
  | par_T_rref               (* (T&&)         *)
  | par_const_T_ref          (* (const T&)    *)
  | par_const_C_ref          (* (const C&)    *)
  | par_C_rref.              (* (C&&)         *)

Inductive return_type : Set :=
  | ret_nothing              (* constructors  *)
  | ret_T_ref                (* T&            *)
  | ret_const_T_ref          (* const T&      *)
  | ret_C_ref.               (* C&            *)

#[export] Instance return_type_eq_dec : EqDecision return_type.
Proof. solve_decision. Defined.

Record member_function : Type := {
  fn_name : function_name;
  fn_parameter : parameter;
  fn_return : return_type;
  fn_const : bool;                 (* const-qualified member function *)
  fn_explicit : bool;              (* declared [explicit] *)
  fn_access : access_specifier;
  fn_requires : type -> bool       (* the requires-clause, at TAccessPolicy *)
}.

(** What a caller writes about a property object [p]. *)
Inductive argument : Set :=
  | arg_none
  | arg_T (c : value_category)          (* v   or   12 *)
  | arg_C (c : value_category).         (* q   or   std::move(q) *)

Inductive expression : Set :=
  | e_construct (a : argument)          (* C p{a} *)
  | e_assign (a : argument)             (* p = a *)
  | e_to_T                              (* T v = p; static_cast<T>(p); const T& r = p *)
  | e_to_T_ref                          (* T& r = p; p++ *)
  | e_value.                            (* p.value() *)

Definition name_of (e : expression) : function_name :=
  match e with
  | e_construct _ => fn_constructor
  | e_assign _ => fn_assignment
  | e_to_T | e_to_T_ref => fn_conversion
  | e_value => fn_value
  end.

Definition argument_of (e : expression) : argument :=
  match e with
  | e_construct a | e_assign a => a
  | _ => arg_none
  end.

(** Implicit conversion sequences, as ranks: smaller is better.  A standard
    conversion (here always an identity or a reference binding) ranks below
    10, a sequence through a user-defined conversion at 10 or above.  Of two
    reference bindings the more direct one is better: an rvalue binds to
    [X&&] rather than to [const X&], a non-const object takes the non-const
    member function rather than the const one. *)
Definition exact : nat := 0.
Definition exact_less_direct : nat := 1.
Definition user_defined : nat := 10.

Section overload_resolution.
(** [lookup]: the declarations name lookup finds in the class of the object;
    [P]: the access-policy argument of the instantiation. *)
Variable lookup : function_name -> list member_function.
Variable P : type.

Definition satisfied (m : member_function) : bool := fn_requires m P.

(** Some constructor converts a [T] to the class implicitly. *)
Definition converts_from_T : bool :=
  existsb (fun m =>
    satisfied m && negb (fn_explicit m) &&
    match fn_parameter m with
    | par_T _ | par_T_rref | par_const_T_ref => true
    | _ => false
    end) (lookup fn_constructor).

(** Some conversion function converts a non-const object of the class to a
    [T] implicitly. *)
Definition converts_to_T : bool :=
  existsb (fun m => satisfied m && negb (fn_explicit m)) (lookup fn_conversion).

Definition via (conversion_exists : bool) (rank : nat) : option nat :=
  if conversion_exists then Some (user_defined + rank) else None.

(** The implicit conversion sequence from an argument to a parameter. *)
Definition match_parameter (par : parameter) (a : argument) : option nat :=
  match par, a with
  | par_none, arg_none => Some exact
  | par_none, _ => None
  | par_T has_default, arg_none => if has_default then Some exact else None
  | _, arg_none => None
  | par_T _, arg_T _ => Some exact
  | par_T _, arg_C _ => via converts_to_T exact
  | par_T_rref, arg_T lvalue => None
  | par_T_rref, arg_T rvalue => Some exact
  | par_T_rref, arg_C _ => None
  | par_const_T_ref, arg_T lvalue => Some exact
  | par_const_T_ref, arg_T rvalue => Some exact_less_direct
  | par_const_T_ref, arg_C _ => via converts_to_T exact
  | par_const_C_ref, arg_C lvalue => Some exact
  | par_const_C_ref, arg_C rvalue => Some exact_less_direct
  | par_const_C_ref, arg_T _ => via converts_from_T exact_less_direct
  | par_C_rref, arg_C lvalue => None
  | par_C_rref, arg_C rvalue => Some exact
  | par_C_rref, arg_T _ => via converts_from_T exact
  end.

(** The implicit object parameter: a const object takes const-qualified
    members only; on a non-const object the non-const overload is the
    better match. *)
Definition match_object (object_is_const : bool) (m : member_function) : option nat :=
  match fn_name m with
  | fn_constructor => Some exact
  | _ =>
    if fn_const m then Some (if object_is_const then exact else exact_less_direct)
    else if object_is_const then None else Some exact
  end.

(** What the expression asks of the result of a conversion function: a
    [T&] binds to the result of [operator T&] only. *)
Definition match_result (e : expression) (m : member_function) : bool :=
  match e with
  | e_to_T_ref => bool_decide (fn_return m = ret_T_ref)
  | _ => true
  end.

(** A declaration whose requires-clause is not satisfied is no candidate. *)
Definition viable (object_is_const : bool) (e : expression) (m : member_function)
  : option (nat * member_function) :=
  if satisfied m && match_result e m then
    match match_object object_is_const m, match_parameter (fn_parameter m) (argument_of e) with
    | Some r1, Some r2 => Some (r1 + r2, m)
    | _, _ => None
    end
  else None.

Inductive resolution : Type :=
  | selected (rank : nat) (m : member_function)
  | no_viable_function
  | ambiguous.

Definition best (candidates : list (nat * member_function)) : resolution :=
  match candidates with
  | [] => no_viable_function
  | c :: cs =>
    let least := foldr Nat.min (fst c) (map fst cs) in
    match List.filter (fun c' => fst c' =? least) candidates with
    | [(r, m)] => selected r m
    | _ => ambiguous
    end
  end.

Definition resolve (object_is_const : bool) (e : expression) : resolution :=
  best (omap (viable object_is_const e) (lookup (name_of e))).

(** Access is checked after overload resolution, on the function it
    selected. *)
Definition well_formed (c : context) (object_is_const : bool) (e : expression) : bool :=
  match resolve object_is_const e with
  | selected _ m => accessible c (fn_access m)
  | _ => false
  end.
End overload_resolution.

(** *** Objects, references and the store *)

(** The operations a value type [T] brings along; the property delegates to
    them and adds nothing of its own. Copying takes its source by const
    reference and leaves it as it is; moving may change its source. *)
Class value_type (T : Type) : Type := {
  value_init : T;                   (* T{} *)
  copy_construct : T -> T;          (* T(const T&): the new object *)
  move_construct : T -> T * T;      (* T(T&&): the new object, what is left in the source *)
  copy_assign : T -> T -> T;        (* t = u: the new state of t, from the states of t and u *)
  move_assign : T -> T -> T * T;    (* t = std::move(u), two objects: the new t, what is left in u *)
  move_assign_self : T -> T         (* t = std::move(t) *)
}.

(** A value type whose copies and moves carry the value over. *)
Class regular (T : Type) `{value_type T} : Prop := {
  copy_construct_copies : forall v, copy_construct v = v;
  move_construct_moves : forall v, fst (move_construct v) = v;
  copy_assign_copies : forall t v, copy_assign t v = v;
  move_assign_moves : forall t v, fst (move_assign t v) = v
}.

Definition address : Set := nat.

(** [T&] and [const T&]: where the referred object lives, and whether the
    reference allows writing through it. *)
Record reference : Set := {
  target : address;
  read_only : bool
}.

Section store.
Context {T : Type} `{value_type T}.

(** One cell per object of type [T]. A [data_storage<T>] has one member,
    [T m_value] (property.h:82), a [property] has its [data_storage] base
    and nothing else, and the owners of main.cc have one property each: the
    address of any of these objects is the address of the cell of its
    [m_value]. Objects are not taken out of the store, and no address is
    used twice. *)
Definition store : Type := list T.

Inductive outcome (A : Type) : Type :=
  | ok (a : A) (s : store)
  | undefined_behaviour          (* an object is used that does not exist *)
  | ill_formed.                  (* the expression does not compile *)

Definition M (A : Type) : Type := store -> outcome A.

Definition ret {A} (a : A) : M A := fun s => ok A a s.

Definition bind {A B} (m : M A) (k : A -> M B) : M B :=
  fun s =>
    match m s with
    | ok _ a s' => k a s'
    | undefined_behaviour _ => undefined_behaviour B
    | ill_formed _ => ill_formed B
    end.

Definition load (a : address) : M T :=
  fun s => match s !! a with Some v => ok T v s | None => undefined_behaviour T end.

Definition put (a : address) (v : T) : M unit :=
  fun s => if a <? length s then ok unit tt (<[a:=v]> s) else undefined_behaviour unit.

(** A new object, initialised with [v], at an address not in use. *)
Definition new_object (v : T) : M address :=
  fun s => ok address (length s) (s ++ [v]).

(** [r = u] for a reference [r] and an object [u] of type [T]: the copy
    assignment of [T]; the expression is the reference again. *)
Definition assign_through (r : reference) (u : address) : M reference :=
  if read_only r then fun _ => ill_formed reference
  else
    bind (load (target r)) (fun old =>
    bind (load u) (fun v =>
    bind (put (target r) (copy_assign old v)) (fun _ =>
    ret r))).

(** [t = std::move(u)] for two objects of type [T]. *)
Definition move_assign_objects (t u : address) : M unit :=
  bind (load t) (fun old =>
  bind (load u) (fun v =>
  if bool_decide (t = u) then put t (move_assign_self old)
  else
    bind (put t (fst (move_assign old v))) (fun _ =>
    put u (snd (move_assign old v))))).

(** A new object copy-constructed, or move-constructed, from the one at [u]. *)
Definition copy_construct_object (u : address) : M address :=
  bind (load u) (fun v => new_object (copy_construct v)).

Definition move_construct_object (u : address) : M address :=
  bind (load u) (fun v =>
  bind (put u (snd (move_construct v))) (fun _ =>
  new_object (fst (move_construct v)))).
End store.

Arguments store : clear implicits.
Arguments outcome : clear implicits.
Arguments M : clear implicits.
Arguments ok {T A} a s.
Arguments undefined_behaviour {T A}.
Arguments ill_formed {T A}.

Notation "'let*' x ':=' m 'in' k" := (bind m (fun x => k))
  (at level 10, x name, m at level 100, k at level 200).

(** *** int *)

(** [int] is 32 bits wide; copying and moving an [int] copy it, and [int{}]
    is 0. *)
Definition int : Set := Z.
Definition INT_MAX : int := 2147483647%Z.

#[export] Instance int_value_type : value_type int := {|
  value_init := 0%Z;
  copy_construct v := v;
  move_construct v := (v, v);
  copy_assign _ v := v;
  move_assign _ v := (v, v);
  move_assign_self v := v
|}.

(** [r++] for a reference to [int]: the old value; signed overflow is
    undefined. *)
Definition post_increment (r : reference) : M int int :=
  if read_only r then fun _ => ill_formed
  else
    let* v := load (target r) in
    if (v <? INT_MAX)%Z
    then let* _ := put (target r) (v + 1)%Z in ret v
    else fun _ => undefined_behaviour.

End cpp.

(* ===================================================================== *)
(** ** namespace util: the declarations of property.h *)
(* ===================================================================== *)

Module util.
Import cpp.

(** The access policies (property.h:23, 29, 35): three empty classes. *)
Definition private_get_set : type := t_class "util::private_get_set"%string.
Definition public_get : type := t_class "util::public_get"%string.
Definition public_get_set : type := t_class "util::public_get_set"%string.

Module impl.

(** property.h:90-95 *)
Definition is_access_policy (T : type) : bool :=
  is_same_v T private_get_set
  || is_same_v T public_get
  || is_same_v T public_get_set.

(** The member functions of [data_storage<T>] (property.h:56-76), all in its
    [protected] section. *)

(** property.h:57: [explicit data_storage(T&& value)] *)
Definition decl_storage_constructor : member_function :=
  {| fn_name := fn_constructor; fn_parameter := par_T_rref; fn_return := ret_nothing;
     fn_const := false; fn_explicit := true; fn_access := acc_protected;
     fn_requires := fun _ => true |}.

(** property.h:63: [data_storage(data_storage&&) = default] *)
Definition decl_storage_move_constructor : member_function :=
  {| fn_name := fn_constructor; fn_parameter := par_C_rref; fn_return := ret_nothing;
     fn_const := false; fn_explicit := false; fn_access := acc_protected;
     fn_requires := fun _ => true |}.

(** property.h:64: [data_storage(const data_storage&) = default] *)
Definition decl_storage_copy_constructor : member_function :=
  {| fn_name := fn_constructor; fn_parameter := par_const_C_ref; fn_return := ret_nothing;
     fn_const := false; fn_explicit := false; fn_access := acc_protected;
     fn_requires := fun _ => true |}.

(** property.h:65: [data_storage& operator=(data_storage&&) = default] *)
Definition decl_storage_move_assignment : member_function :=
  {| fn_name := fn_assignment; fn_parameter := par_C_rref; fn_return := ret_C_ref;
     fn_const := false; fn_explicit := false; fn_access := acc_protected;
     fn_requires := fun _ => true |}.

(** property.h:66: [data_storage& operator=(const data_storage&) = default] *)
Definition decl_storage_copy_assignment : member_function :=
  {| fn_name := fn_assignment; fn_parameter := par_const_C_ref; fn_return := ret_C_ref;
     fn_const := false; fn_explicit := false; fn_access := acc_protected;
     fn_requires := fun _ => true |}.

(** property.h:68: [T& value()] *)
Definition decl_value : member_function :=
  {| fn_name := fn_value; fn_parameter := par_none; fn_return := ret_T_ref;
     fn_const := false; fn_explicit := false; fn_access := acc_protected;
     fn_requires := fun _ => true |}.

(** property.h:73: [const T& value() const] *)
Definition decl_value_const : member_function :=
  {| fn_name := fn_value; fn_parameter := par_none; fn_return := ret_const_T_ref;
     fn_const := true; fn_explicit := false; fn_access := acc_protected;
     fn_requires := fun _ => true |}.

(** The bodies of property.h:68-71 and property.h:73-76, [return m_value;]:
    a reference to the member, read-only from the const overload. *)
Definition value (this : address) : reference :=
  {| target := this; read_only := false |}.
Definition value_const (this : address) : reference :=
  {| target := this; read_only := true |}.

Definition data_storage_declarations : list member_function := [
  decl_storage_constructor; decl_storage_move_constructor;
  decl_storage_copy_constructor; decl_storage_move_assignment;
  decl_storage_copy_assignment; decl_value; decl_value_const
].

End impl.

(** property.h:148-150 *)
Definition is_public_get (TAccessPolicy : type) : bool :=
  is_same_v TAccessPolicy public_get || is_same_v TAccessPolicy public_get_set.
Definition is_public_set (TAccessPolicy : type) : bool :=
  is_same_v TAccessPolicy public_get_set.

(** The member functions [property] declares itself (property.h:152-192). *)

(** property.h:153: [public: property(TValue value = TValue {})] *)
Definition decl_constructor : member_function :=
  {| fn_name := fn_constructor; fn_parameter := par_T true; fn_return := ret_nothing;
     fn_const := false; fn_explicit := false; fn_access := acc_public;
     fn_requires := fun _ => true |}.

(** property.h:159: [public: property(property&&) = default] *)
Definition decl_move_constructor : member_function :=
  {| fn_name := fn_constructor; fn_parameter := par_C_rref; fn_return := ret_nothing;
     fn_const := false; fn_explicit := false; fn_access := acc_public;
     fn_requires := fun _ => true |}.

(** property.h:160: [public: property(const property&) = default] *)
Definition decl_copy_constructor : member_function :=
  {| fn_name := fn_constructor; fn_parameter := par_const_C_ref; fn_return := ret_nothing;
     fn_const := false; fn_explicit := false; fn_access := acc_public;
     fn_requires := fun _ => true |}.

(** property.h:161: [public: property& operator=(property&&) = default] *)
Definition decl_move_assignment : member_function :=
  {| fn_name := fn_assignment; fn_parameter := par_C_rref; fn_return := ret_C_ref;
     fn_const := false; fn_explicit := false; fn_access := acc_public;
     fn_requires := fun _ => true |}.

(** property.h:162: [public: property& operator=(const property&) = default] *)
Definition decl_copy_assignment : member_function :=
  {| fn_name := fn_assignment; fn_parameter := par_const_C_ref; fn_return := ret_C_ref;
     fn_const := false; fn_explicit := false; fn_access := acc_public;
     fn_requires := fun _ => true |}.

(** property.h:165: [public: operator TValue&() requires(is_public_get && is_public_set)] *)
Definition decl_get_public_set : member_function :=
  {| fn_name := fn_conversion; fn_parameter := par_none; fn_return := ret_T_ref;
     fn_const := false; fn_explicit := false; fn_access := acc_public;
     fn_requires := fun P => is_public_get P && is_public_set P |}.

(** property.h:171: [public: operator const TValue&() requires(is_public_get && !is_public_set)] *)
Definition decl_get_public : member_function :=
  {| fn_name := fn_conversion; fn_parameter := par_none; fn_return := ret_const_T_ref;
     fn_const := false; fn_explicit := false; fn_access := acc_public;
     fn_requires := fun P => is_public_get P && negb (is_public_set P) |}.

(** property.h:177: [private: operator TValue&() requires(!is_public_get)] *)
Definition decl_get_private : member_function :=
  {| fn_name := fn_conversion; fn_parameter := par_none; fn_return := ret_T_ref;
     fn_const := false; fn_explicit := false; fn_access := acc_private;
     fn_requires := fun P => negb (is_public_get P) |}.

(** property.h:183: [public: TValue& operator=(const TValue& new_value) requires(is_public_set)] *)
Definition decl_set_public : member_function :=
  {| fn_name := fn_assignment; fn_parameter := par_const_T_ref; fn_return := ret_T_ref;
     fn_const := false; fn_explicit := false; fn_access := acc_public;
     fn_requires := fun P => is_public_set P |}.

(** property.h:189: [private: TValue& operator=(const TValue& new_value) requires(!is_public_set)] *)
Definition decl_set_private : member_function :=
  {| fn_name := fn_assignment; fn_parameter := par_const_T_ref; fn_return := ret_T_ref;
     fn_const := false; fn_explicit := false; fn_access := acc_private;
     fn_requires := fun P => negb (is_public_set P) |}.

Definition property_declarations : list member_function := [
  decl_constructor; decl_move_constructor; decl_copy_constructor;
  decl_move_assignment; decl_copy_assignment;
  decl_get_public_set; decl_get_public; decl_get_private;
  decl_set_public; decl_set_private
].

(** The conversion function and the value assignment whose requires-clause
    a policy satisfies. *)
Definition getter (P : type) : member_function :=
  if is_public_get P
  then if is_public_set P then decl_get_public_set else decl_get_public
  else decl_get_private.

Definition setter (P : type) : member_function :=
  if is_public_set P then decl_set_public else decl_set_private.

Definition named (n : function_name) (ms : list member_function) : list member_function :=
  List.filter (fun m => bool_decide (fn_name m = n)) ms.

Definition with_access (a : access_specifier) (m : member_function) : member_function :=
  {| fn_name := fn_name m; fn_parameter := fn_parameter m; fn_return := fn_return m;
     fn_const := fn_const m; fn_explicit := fn_explicit m; fn_access := a;
     fn_requires := fn_requires m |}.

(** Name lookup in [property] (property.h:145): its own declarations of the
    name hide those of the base; constructors are not inherited; the other
    members of [impl::data_storage<TValue>] come in through the [private]
    base. *)
Definition property_lookup (n : function_name) : list member_function :=
  match named n property_declarations, n with
  | [], fn_constructor => []
  | [], _ =>
    omap (fun m => a ← inherited acc_private (fn_access m); Some (with_access a m))
         (named n impl.data_storage_declarations)
  | ms, _ => ms
  end.

(** An instantiation [property<TOwner, TValue, TAccessPolicy>]
    (property.h:143-145). *)
Record property_type : Set := {
  TOwner : type;
  TValue : type;
  TAccessPolicy : type
}.

(** The third template argument may be left out (its default is
    [private_get_set]); the requires-clause of line 144 rejects the
    instantiation when it does not hold. *)
Definition instantiate (owner value : type) (policy : option type) : option property_type :=
  let P := default private_get_set policy in
  if impl.is_access_policy P
  then Some {| TOwner := owner; TValue := value; TAccessPolicy := P |}
  else None.

(** An expression about an object of type [property<_, _, P>], written in
    context [c]. *)
Definition resolve_on (P : type) : bool -> expression -> resolution :=
  resolve property_lookup P.
Definition allowed (c : context) (P : type) (object_is_const : bool) (e : expression) : bool :=
  well_formed property_lookup P c object_is_const e.

(** *** The bodies *)

Section bodies.
Context {T : Type} `{value_type T}.

(** A [T&] returned as the declared return type. *)
Definition returned_as (rt : return_type) (r : reference) : reference :=
  match rt with
  | ret_const_T_ref => {| target := target r; read_only := true |}
  | _ => r
  end.

(** property.h:165-180, the three conversion functions: [return this->value();]
    ([this] is not const in any of them, so this is the [value()] of line 68). *)
Definition conversion (m : member_function) (this : address) : M T reference :=
  ret (returned_as (fn_return m) (impl.value this)).

(** property.h:183-192, both overloads: [return this->value() = new_value;] *)
Definition assign_value (this new_value : address) : M T reference :=
  assign_through (impl.value this) new_value.

(** property.h:162 with property.h:66, defaulted: the member is
    copy-assigned; the result is [*this]. *)
Definition copy_assignment (this other : address) : M T reference :=
  bind (assign_through (impl.value this) other) (fun _ =>
  ret {| target := this; read_only := false |}).

(** property.h:161 with property.h:65, defaulted: the member is
    move-assigned. *)
Definition move_assignment (this other : address) : M T reference :=
  bind (move_assign_objects this other) (fun _ =>
  ret {| target := this; read_only := false |}).

(** property.h:160 with property.h:64, and property.h:159 with
    property.h:63, defaulted: the member is copy- or move-constructed. *)
Definition copy_constructor (other : address) : M T reference :=
  bind (copy_construct_object other) (fun this =>
  ret {| target := this; read_only := false |}).

Definition move_constructor (other : address) : M T reference :=
  bind (move_construct_object other) (fun this =>
  ret {| target := this; read_only := false |}).

(** property.h:153-156 with property.h:57-60: [value] is the parameter
    object, which the caller has initialised; the member is move-constructed
    from it. *)
Definition constructor (value : address) : M T reference :=
  bind (move_construct_object value) (fun this =>
  ret {| target := this; read_only := false |}).

(** The body behind each declaration; [arg] is the address of the argument
    object where there is one. A constructor makes its object, the other
    members work on [this]. *)
Definition invoke (m : member_function) (this arg : address) : M T reference :=
  match fn_name m, fn_parameter m with
  | fn_conversion, _ => conversion m this
  | fn_value, _ =>
    ret (if fn_const m then impl.value_const this else impl.value this)
  | fn_assignment, par_const_T_ref => assign_value this arg
  | fn_assignment, par_const_C_ref => copy_assignment this arg
  | fn_assignment, par_C_rref => move_assignment this arg
  | fn_constructor, par_T _ => constructor arg
  | fn_constructor, par_const_C_ref => copy_constructor arg
  | fn_constructor, par_C_rref => move_constructor arg
  | _, _ => fun _ => ill_formed
  end.

(** An expression about the property at [this], of policy [P], written in
    context [c]: the compiler resolves and checks it, then the selected
    member runs. *)
Definition evaluate (c : context) (P : type) (object_is_const : bool)
    (e : expression) (this arg : address) : M T reference :=
  match resolve_on P object_is_const e with
  | selected _ m =>
    if accessible c (fn_access m) then invoke m this arg else fun _ => ill_formed
  | _ => fun _ => ill_formed
  end.

(** The expressions callers write. *)

(** [static_cast<T>(p)], [T v = p]: convert, then read the value. *)
Definition read (c : context) (P : type) (p : address) : M T T :=
  bind (evaluate c P false e_to_T p p) (fun r => load (target r)).

(** [p = v] for an object [v] of type [T]. *)
Definition write (c : context) (P : type) (p v : address) : M T reference :=
  evaluate c P false (e_assign (arg_T lvalue)) p v.

(** [p = x] for a value [x] that is not an object yet (as in [p = 12]): the
    temporary is materialised first. *)
Definition write_value (c : context) (P : type) (p : address) (x : T) : M T reference :=
  bind (new_object x) (fun tmp =>
  evaluate c P false (e_assign (arg_T rvalue)) p tmp).

(** [p = q] and [p = std::move(q)] for another property [q] of the same type. *)
Definition assign_from (c : context) (P : type) (p q : address) : M T reference :=
  evaluate c P false (e_assign (arg_C lvalue)) p q.
Definition assign_from_moved (c : context) (P : type) (p q : address) : M T reference :=
  evaluate c P false (e_assign (arg_C rvalue)) p q.

(** [property p;], [property p{x}] for a value [x], [property p{v}] for an
    object [v]: the parameter is value-initialised, is [x] itself, or is
    copy-constructed from [v]. *)
Definition construct_default (c : context) (P : type) : M T reference :=
  bind (new_object value_init) (fun value =>
  evaluate c P false (e_construct arg_none) value value).
Definition construct_from_value (c : context) (P : type) (x : T) : M T reference :=
  bind (new_object x) (fun value =>
  evaluate c P false (e_construct (arg_T rvalue)) value value).
Definition construct_from (c : context) (P : type) (v : address) : M T reference :=
  bind (copy_construct_object v) (fun value =>
  evaluate c P false (e_construct (arg_T lvalue)) value value).

(** [property p{q}] and [property p{std::move(q)}]. *)
Definition copy_of (c : context) (P : type) (q : address) : M T reference :=
  evaluate c P false (e_construct (arg_C lvalue)) q q.
Definition moved_from (c : context) (P : type) (q : address) : M T reference :=
  evaluate c P false (e_construct (arg_C rvalue)) q q.

(** [p = property{x}] for a value [x]: a temporary property is constructed
    from [x] (property.h:153) and move-assigned to [p] (property.h:161). *)
Definition write_through_temporary (c : context) (P : type) (p : address) (x : T)
  : M T reference :=
  bind (construct_from_value c P x) (fun tmp =>
  assign_from_moved c P p (target tmp)).

(** [p.value()], on a property that is const or not. *)
Definition call_value (c : context) (P : type) (object_is_const : bool) (p : address)
  : M T reference :=
  evaluate c P object_is_const e_value p p.

(** [T& r = p]: the property converted to a reference that can be written
    through. *)
Definition bind_reference (c : context) (P : type) (p : address) : M T reference :=
  evaluate c P false e_to_T_ref p p.
End bodies.

(** [p++] for a property of [int] (main.cc:67): the conversion to [int&],
    then the built-in increment. *)
Definition increment (c : context) (P : type) (p : address) : M int int :=
  bind (bind_reference c P p) (fun r => post_increment r).

End util.

(* ===================================================================== *)
(** ** tests/main.cc *)
(* ===================================================================== *)

Module tests.
Import cpp util.

(** main.cc:15-37: three owners, each with one member, [property]. *)
Definition opened_property : property_type :=
  {| TOwner := t_class "opened::dummy_object"; TValue := t_int;
     TAccessPolicy := public_get_set |}.
Definition closed_property : property_type :=
  {| TOwner := t_class "closed::dummy_object"; TValue := t_int;
     TAccessPolicy := private_get_set |}.
Definition opened_read_property : property_type :=
  {| TOwner := t_class "opened_read::dummy_object"; TValue := t_int;
     TAccessPolicy := public_get |}.

(** main.cc:39-49; the requires-expressions stand at namespace scope, and
    [obj] and [val] are lvalues there. *)
Definition is_public_read (pt : property_type) : bool :=
  allowed outside (TAccessPolicy pt) false e_to_T.
Definition is_public_write (pt : property_type) : bool :=
  allowed outside (TAccessPolicy pt) false (e_assign (arg_T lvalue)).

(** [dummy_object obj;], [auto copy { obj };], [auto moved { std::move(obj) };]:
    the implicit constructors of the owner construct its member. *)
Definition dummy_object (pt : property_type) : M int address :=
  let* r := construct_default in_owner (TAccessPolicy pt) in ret (target r).
Definition dummy_object_copy (pt : property_type) (obj : address) : M int address :=
  let* r := copy_of in_owner (TAccessPolicy pt) obj in ret (target r).
Definition dummy_object_move (pt : property_type) (obj : address) : M int address :=
  let* r := moved_from in_owner (TAccessPolicy pt) obj in ret (target r).

(** main.cc:62-69; the result is the pair of values the two assertions see. *)
Definition value_test : M int (int * int) :=
  let P := TAccessPolicy opened_property in
  let* obj := dummy_object opened_property in
  let* _ := write_value outside P obj 12%Z in
  let* a := read outside P obj in
  let* r := evaluate outside P false e_to_T_ref obj obj in
  let* _ := post_increment r in
  let* b := read outside P obj in
  ret (a, b).

(** main.cc:71-77 *)
Definition copy_test : M int int :=
  let P := TAccessPolicy opened_property in
  let* obj := dummy_object opened_property in
  let* _ := write_value outside P obj 13%Z in
  let* copy := dummy_object_copy opened_property obj in
  read outside P copy.

(** main.cc:79-86 *)
Definition copy_assigne_test : M int int :=
  let P := TAccessPolicy opened_property in
  let* obj := dummy_object opened_property in
  let* obj2 := dummy_object opened_property in
  let* _ := write_value outside P obj 13%Z in
  let* _ := assign_from outside P obj2 obj in
  read outside P obj2.

(** main.cc:88-94 *)
Definition move_test : M int int :=
  let P := TAccessPolicy opened_property in
  let* obj := dummy_object opened_property in
  let* _ := write_value outside P obj 13%Z in
  let* moved := dummy_object_move opened_property obj in
  read outside P moved.

(** main.cc:96-103 *)
Definition move_assigne_test : M int int :=
  let P := TAccessPolicy opened_property in
  let* obj := dummy_object opened_property in
  let* obj2 := dummy_object opened_property in
  let* _ := write_value outside P obj 13%Z in
  let* _ := assign_from_moved outside P obj2 obj in
  read outside P obj2.

End tests.

(* ===================================================================== *)
(** ** Properties *)
(* ===================================================================== *)

Import cpp util.

(** *** The access policies *)

Lemma is_same_v_true (T U : type) : is_same_v T U = true <-> T = U.
Proof. unfold is_same_v. apply bool_decide_eq_true. Qed.

Lemma is_same_v_false (T U : type) : is_same_v T U = false <-> T <> U.
Proof. unfold is_same_v. apply bool_decide_eq_false. Qed.

Lemma is_access_policy_cases (P : type) :
  impl.is_access_policy P = true <->
  P = private_get_set \/ P = public_get \/ P = public_get_set.
Proof.
  unfold impl.is_access_policy.
  rewrite !orb_true_iff, !is_same_v_true. tauto.
Qed.

Lemma is_public_get_cases (P : type) :
  is_public_get P = true <-> P = public_get \/ P = public_get_set.
Proof. unfold is_public_get. rewrite orb_true_iff, !is_same_v_true. tauto. Qed.

Lemma is_public_set_cases (P : type) :
  is_public_set P = true <-> P = public_get_set.
Proof. unfold is_public_set. apply is_same_v_true. Qed.

Lemma is_public_set_get (P : type) :
  is_public_set P = true -> is_public_get P = true.
Proof. rewrite is_public_set_cases, is_public_get_cases. tauto. Qed.

(** *** What overload resolution selects *)

Ltac by_policy P :=
  let sg := fresh "sg" in
  pose proof (is_public_set_get P) as sg;
  cbv -[is_public_get is_public_set] in *;
  destruct (is_public_get P), (is_public_set P);
  solve [ reflexivity | discriminate (sg eq_refl) ].

Lemma resolve_to_T (P : type) :
  resolve_on P false e_to_T = selected 0 (getter P).
Proof. by_policy P. Qed.

Lemma resolve_to_T_ref (P : type) :
  resolve_on P false e_to_T_ref =
  if is_public_get P && negb (is_public_set P) then no_viable_function
  else selected 0 (getter P).
Proof. by_policy P. Qed.

Lemma resolve_to_T_const (P : type) (e : expression) :
  name_of e = fn_conversion -> resolve_on P true e = no_viable_function.
Proof. destruct e; try discriminate; intros _; by_policy P. Qed.

Lemma resolve_assign_T (P : type) (cat : value_category) :
  resolve_on P false (e_assign (arg_T cat)) =
  selected (match cat with lvalue => 0 | rvalue => 1 end) (setter P).
Proof. destruct cat; by_policy P. Qed.

Lemma resolve_assign_C (P : type) (cat : value_category) :
  resolve_on P false (e_assign (arg_C cat)) =
  selected 0 (match cat with
              | lvalue => decl_copy_assignment
              | rvalue => decl_move_assignment
              end).
Proof. destruct cat; by_policy P. Qed.

Lemma resolve_construct (P : type) (a : argument) :
  resolve_on P false (e_construct a) =
  selected 0 (match a with
              | arg_none | arg_T _ => decl_constructor
              | arg_C lvalue => decl_copy_constructor
              | arg_C rvalue => decl_move_constructor
              end).
Proof. destruct a as [|[]|[]]; by_policy P. Qed.

Lemma resolve_value (P : type) (object_is_const : bool) :
  resolve_on P object_is_const e_value =
  selected 0 (with_access acc_private
                (if object_is_const then impl.decl_value_const else impl.decl_value)).
Proof. destruct object_is_const; reflexivity. Qed.

(** *** The store *)

Section store_facts.
Context {T : Type} `{value_type T}.
Implicit Types (s : store T) (p a : address) (v : T).

Lemma load_ok s p v : s !! p = Some v -> load p s = ok v s.
Proof. unfold load. intros ->. reflexivity. Qed.

Lemma put_ok s p v w : s !! p = Some w -> put p v s = ok tt (<[p:=v]> s).
Proof.
  intros Hp. unfold put.
  apply lookup_lt_Some, Nat.ltb_lt in Hp. rewrite Hp. reflexivity.
Qed.

Lemma lookup_put_eq s p v w : s !! p = Some w -> <[p:=v]> s !! p = Some v.
Proof. intros Hp. apply list_lookup_insert_eq. eapply lookup_lt_Some, Hp. Qed.

Lemma lookup_put s p a v w :
  s !! p = Some w -> <[p:=v]> s !! a = if decide (p = a) then Some v else s !! a.
Proof.
  intros Hp. destruct (decide (p = a)) as [<-|Hne].
  - eapply lookup_put_eq, Hp.
  - apply list_lookup_insert_ne, Hne.
Qed.

Lemma lookup_new s v : (s ++ [v]) !! length s = Some v.
Proof. rewrite lookup_app_r by lia. rewrite Nat.sub_diag. reflexivity. Qed.

Lemma lookup_old s p v w : s !! p = Some w -> (s ++ [v]) !! p = Some w.
Proof. intros Hp. rewrite lookup_app_l; [exact Hp | eapply lookup_lt_Some, Hp]. Qed.

Lemma live_is_old s p w : s !! p = Some w -> p <> length s.
Proof. intros Hp%lookup_lt_Some. lia. Qed.

Lemma assign_through_ok s p a old v :
  s !! p = Some old -> s !! a = Some v ->
  assign_through (impl.value p) a s =
  ok (impl.value p) (<[p := copy_assign old v]> s).
Proof.
  intros Hp Ha. unfold assign_through, bind; cbn.
  rewrite (load_ok _ _ _ Hp), (load_ok _ _ _ Ha), (put_ok _ _ _ _ Hp).
  reflexivity.
Qed.
End store_facts.

(** *** What the expressions of a caller run *)

Section evaluation.
Context {T : Type} `{value_type T}.
Implicit Types (s : store T) (p q a : address) (v : T) (P : type) (c : context).

Lemma allowed_read c P :
  allowed c P false e_to_T = accessible c (fn_access (getter P)).
Proof. unfold allowed, well_formed. fold (resolve_on P). rewrite resolve_to_T. reflexivity. Qed.

Lemma allowed_write c P cat :
  allowed c P false (e_assign (arg_T cat)) = accessible c (fn_access (setter P)).
Proof.
  unfold allowed, well_formed. fold (resolve_on P). rewrite resolve_assign_T. reflexivity.
Qed.

Lemma read_runs c P p :
  allowed c P false e_to_T = true -> read (T:=T) c P p = load p.
Proof.
  rewrite allowed_read. intros Hc.
  unfold read, evaluate. rewrite resolve_to_T, Hc.
  unfold getter. destruct (is_public_get P), (is_public_set P); reflexivity.
Qed.

Lemma write_runs c P cat p a :
  allowed c P false (e_assign (arg_T cat)) = true ->
  evaluate (T:=T) c P false (e_assign (arg_T cat)) p a = assign_value p a.
Proof.
  rewrite allowed_write. intros Hc.
  unfold evaluate. rewrite resolve_assign_T, Hc.
  unfold setter. destruct (is_public_set P); reflexivity.
Qed.

Lemma assign_from_runs c P p q :
  assign_from (T:=T) c P p q = copy_assignment p q.
Proof.
  unfold assign_from, evaluate. rewrite resolve_assign_C. destruct c; reflexivity.
Qed.

Lemma assign_from_moved_runs c P p q :
  assign_from_moved (T:=T) c P p q = move_assignment p q.
Proof.
  unfold assign_from_moved, evaluate. rewrite resolve_assign_C. destruct c; reflexivity.
Qed.

Lemma construct_runs c P (x : argument) p q :
  evaluate (T:=T) c P false (e_construct x) p q =
  match x with
  | arg_none | arg_T _ => constructor q
  | arg_C lvalue => copy_constructor q
  | arg_C rvalue => move_constructor q
  end.
Proof.
  unfold evaluate. rewrite resolve_construct.
  destruct c, x as [|[]|[]]; reflexivity.
Qed.

Lemma assign_value_ok s p a old v :
  s !! p = Some old -> s !! a = Some v ->
  assign_value p a s = ok (impl.value p) (<[p := copy_assign old v]> s).
Proof. apply assign_through_ok. Qed.

Lemma copy_assignment_ok s p q old v :
  s !! p = Some old -> s !! q = Some v ->
  copy_assignment p q s = ok (impl.value p) (<[p := copy_assign old v]> s).
Proof.
  intros Hp Hq. unfold copy_assignment, bind.
  rewrite (assign_through_ok _ _ _ _ _ Hp Hq). reflexivity.
Qed.

Lemma move_assignment_ok s p q old v :
  s !! p = Some old -> s !! q = Some v -> p <> q ->
  move_assignment p q s =
  ok (impl.value p)
     (<[q := snd (move_assign old v)]> (<[p := fst (move_assign old v)]> s)).
Proof.
  intros Hp Hq Hne. unfold move_assignment, move_assign_objects, bind.
  rewrite (load_ok _ _ _ Hp), (load_ok _ _ _ Hq).
  rewrite bool_decide_eq_false_2 by exact Hne.
  rewrite (put_ok _ _ _ _ Hp).
  assert (Hq' : <[p := fst (move_assign old v)]> s !! q = Some v).
  { rewrite (lookup_put _ _ _ _ _ Hp). destruct (decide (p = q)); [contradiction | exact Hq]. }
  rewrite (put_ok _ _ _ _ Hq'). reflexivity.
Qed.

Lemma copy_constructor_ok s q v :
  s !! q = Some v ->
  copy_constructor q s = ok (impl.value (length s)) (s ++ [copy_construct v]).
Proof.
  intros Hq. unfold copy_constructor, copy_construct_object, bind.
  rewrite (load_ok _ _ _ Hq). reflexivity.
Qed.

Lemma move_construct_object_ok s q v :
  s !! q = Some v ->
  move_construct_object q s =
  ok (length s) (<[q := snd (move_construct v)]> s ++ [fst (move_construct v)]).
Proof.
  intros Hq. unfold move_construct_object, bind.
  rewrite (load_ok _ _ _ Hq), (put_ok _ _ _ _ Hq).
  unfold new_object. rewrite length_insert. reflexivity.
Qed.

Lemma move_constructor_ok s q v :
  s !! q = Some v ->
  move_constructor q s =
  ok (impl.value (length s))
     (<[q := snd (move_construct v)]> s ++ [fst (move_construct v)]).
Proof.
  intros Hq. unfold move_constructor, bind.
  rewrite (move_construct_object_ok _ _ _ Hq). reflexivity.
Qed.

Lemma constructor_ok s q v :
  s !! q = Some v ->
  constructor q s =
  ok (impl.value (length s))
     (<[q := snd (move_construct v)]> s ++ [fst (move_construct v)]).
Proof. apply move_constructor_ok. Qed.
End evaluation.

(** *** Visibility of the accessors *)

Lemma getter_public (P : type) :
  accessible outside (fn_access (getter P)) = is_public_get P.
Proof. unfold getter. destruct (is_public_get P), (is_public_set P); reflexivity. Qed.

Lemma setter_public (P : type) :
  accessible outside (fn_access (setter P)) = is_public_set P.
Proof. unfold setter. destruct (is_public_set P); reflexivity. Qed.

(** In the owner every expression about a non-const property compiles, but
    for an assignment without a right-hand side, and for binding a [T&]
    under [public_get], whose conversion function returns [const T&]. *)
Lemma owner_reaches_everything (P : type) (e : expression) :
  allowed in_owner P false e = true
  \/ e = e_assign arg_none
  \/ e = e_to_T_ref /\ P = public_get.
Proof.
  unfold allowed, well_formed. fold (resolve_on P).
  destruct e as [x|[|x|x]| | |].
  - rewrite resolve_construct. left. destruct x as [|[]|[]]; reflexivity.
  - right. left. reflexivity.
  - rewrite resolve_assign_T. left. unfold setter. destruct (is_public_set P); reflexivity.
  - rewrite resolve_assign_C. left. destruct x; reflexivity.
  - rewrite resolve_to_T. left. unfold getter.
    destruct (is_public_get P), (is_public_set P); reflexivity.
  - rewrite resolve_to_T_ref.
    destruct (is_public_get P) eqn:g, (is_public_set P) eqn:s; cbn;
      unfold getter; rewrite ?g, ?s; auto.
    right. right. split; [reflexivity|].
    apply is_public_get_cases in g as [->| ->]; [reflexivity | discriminate s].
  - rewrite resolve_value. left. reflexivity.
Qed.

(** main.cc:52-60, [access_test]: the six assertions hold. *)
Example access_test :
  tests.is_public_read tests.opened_property = true /\
  tests.is_public_write tests.opened_property = true /\
  tests.is_public_read tests.opened_read_property = true /\
  tests.is_public_write tests.opened_read_property = false /\
  tests.is_public_read tests.closed_property = false /\
  tests.is_public_write tests.closed_property = false.
Proof. repeat split; reflexivity. Qed.

(** The three owners of main.cc are instantiations the header accepts;
    [closed] leaves the policy out. *)
Example owners_instantiate :
  instantiate (t_class "opened::dummy_object") t_int (Some public_get_set)
    = Some tests.opened_property /\
  instantiate (t_class "closed::dummy_object") t_int None
    = Some tests.closed_property /\
  instantiate (t_class "opened_read::dummy_object") t_int (Some public_get)
    = Some tests.opened_read_property.
Proof. repeat split; reflexivity. Qed.

(** Types that are no policy, a const-qualified policy among them, are
    rejected. *)
Example other_policies_rejected :
  instantiate (t_class "opened::dummy_object") t_int (Some t_int) = None /\
  instantiate (t_class "opened::dummy_object") t_int (Some (t_const public_get)) = None /\
  instantiate (t_class "opened::dummy_object") t_int
    (Some (t_class "opened::dummy_object")) = None.
Proof. repeat split; reflexivity. Qed.

(** C1. From outside the owner, the accessors that can be used are those the
    policy grants: the read accessor (conversion to the value type) exactly
    under [public_get] and [public_get_set], the write accessor (assignment
    of a value, lvalue or rvalue) exactly under [public_get_set]; so under
    [private_get_set] neither, and that is the policy of a property declared
    without one. *)
Theorem external_accessors_follow_policy :
  forall (P : type) (cat : value_category),
    (allowed outside P false e_to_T = true <-> P = public_get \/ P = public_get_set)
    /\ (allowed outside P false (e_assign (arg_T cat)) = true <-> P = public_get_set)
    /\ allowed outside private_get_set false e_to_T = false
    /\ allowed outside private_get_set false (e_assign (arg_T cat)) = false
    /\ allowed outside public_get false (e_assign (arg_T cat)) = false
    /\ (forall O V : type,
          TAccessPolicy <$> instantiate O V None = Some private_get_set).
Proof.
  intros P cat. repeat split; try (destruct cat; reflexivity).
  - rewrite allowed_read, getter_public. apply is_public_get_cases.
  - rewrite allowed_read, getter_public. apply is_public_get_cases.
  - rewrite allowed_write, setter_public. apply is_public_set_cases.
  - rewrite allowed_write, setter_public. apply is_public_set_cases.
Qed.

(** C9. A property can be instantiated with the policies [private_get_set],
    [public_get] and [public_get_set] and with no other type: any other
    third template argument is rejected, and the policy of every
    instantiation is one of the three. *)
Theorem instantiation_requires_access_policy :
  forall (O V : type) (policy : option type),
    match instantiate O V policy with
    | Some pt =>
      TOwner pt = O /\ TValue pt = V
      /\ TAccessPolicy pt = default private_get_set policy
      /\ (TAccessPolicy pt = private_get_set \/ TAccessPolicy pt = public_get
          \/ TAccessPolicy pt = public_get_set)
    | None =>
      exists P, policy = Some P
        /\ P <> private_get_set /\ P <> public_get /\ P <> public_get_set
    end.
Proof.
  intros O V policy. unfold instantiate.
  destruct (impl.is_access_policy (default private_get_set policy)) eqn:E.
  - cbn. apply is_access_policy_cases in E. auto.
  - destruct policy as [P|]; [|discriminate E].
    exists P. split; [reflexivity|]. cbn in E.
    assert (N : ~ (P = private_get_set \/ P = public_get \/ P = public_get_set)).
    { rewrite <- is_access_policy_cases, E. discriminate. }
    tauto.
Qed.

(** *** Value semantics *)

#[export] Instance int_regular : regular int.
Proof. split; reflexivity. Qed.

Section value_semantics.
Context {T : Type} `{regular T}.
Implicit Types (s : store T) (p q a b : address) (v w old : T) (P : type) (c : context).

Lemma write_ok c P p a old v s :
  allowed c P false (e_assign (arg_T lvalue)) = true ->
  s !! p = Some old -> s !! a = Some v ->
  write c P p a s = ok {| target := p; read_only := false |} (<[p:=v]> s).
Proof.
  intros Hc Hp Ha. unfold write. rewrite (write_runs _ _ _ _ _ Hc).
  rewrite (assign_value_ok _ _ _ _ _ Hp Ha), copy_assign_copies. reflexivity.
Qed.

Lemma write_value_ok c P p old v s :
  allowed c P false (e_assign (arg_T rvalue)) = true ->
  s !! p = Some old ->
  write_value c P p v s =
  ok {| target := p; read_only := false |} (<[p:=v]> (s ++ [v])).
Proof.
  intros Hc Hp. unfold write_value, bind, new_object.
  rewrite (write_runs _ _ _ _ _ Hc).
  rewrite (assign_value_ok _ _ _ _ _ (lookup_old _ _ v _ Hp) (lookup_new _ _)).
  rewrite copy_assign_copies. reflexivity.
Qed.

Lemma read_ok c P p v s :
  allowed c P false e_to_T = true -> s !! p = Some v -> read c P p s = ok v s.
Proof. intros Hc Hp. rewrite (read_runs _ _ _ Hc). apply load_ok, Hp. Qed.
End value_semantics.

(** C2. Under a policy that lets the caller both write and read, assigning
    the value [v] (an object [a] holding [v], which may be the stored value
    itself, or a value that is no object yet) and then reading gives [v]. *)
Theorem write_then_read {T : Type} `{regular T}
    (c : context) (P : type) (p a : address) (old v : T) (s : store T) :
  allowed c P false (e_assign (arg_T lvalue)) = true ->
  allowed c P false e_to_T = true ->
  s !! p = Some old ->
  s !! a = Some v ->
  (let* _ := write c P p a in read c P p) s = ok v (<[p:=v]> s)
  /\ (let* _ := write_value c P p v in read c P p) s = ok v (<[p:=v]> (s ++ [v])).
Proof.
  intros Hw Hr Hp Ha. unfold bind. split.
  - rewrite (write_ok _ _ _ _ _ _ _ Hw Hp Ha).
    apply (read_ok _ _ _ _ _ Hr), (lookup_put_eq _ _ _ _ Hp).
  - assert (Hw' : allowed c P false (e_assign (arg_T rvalue)) = true).
    { rewrite allowed_write in *. exact Hw. }
    rewrite (write_value_ok _ _ _ _ _ _ Hw' Hp).
    apply (read_ok _ _ _ _ _ Hr), (lookup_put_eq _ _ _ old), lookup_old, Hp.
Qed.

Lemma write_then_read_witness :
  allowed outside public_get_set false (e_assign (arg_T lvalue)) = true
  /\ allowed outside public_get_set false e_to_T = true
  /\ ([5; 12]%Z : store int) !! 0 = Some 5%Z
  /\ ([5; 12]%Z : store int) !! 1 = Some 12%Z
  /\ (let* _ := write outside public_get_set 0 1 in read outside public_get_set 0)
       ([5; 12]%Z : store int) = ok 12%Z [12; 12]%Z
  /\ (let* _ := write_value outside public_get_set 0 12%Z in read outside public_get_set 0)
       ([5; 12]%Z : store int) = ok 12%Z [12; 12; 12]%Z.
Proof.
  do 4 (split; [reflexivity|]).
  apply (write_then_read (T:=int) outside public_get_set 0 1 5%Z 12%Z [5; 12]%Z);
    reflexivity.
Defined.

(** main.cc:62-69, [value_test]: the assertions see 12 and then 13. *)
Example value_test_passes :
  exists s, tests.value_test [] = ok (12%Z, 13%Z) s.
Proof. eexists. reflexivity. Qed.

(** C5. The write accessor returns a reference to the stored value of the
    property it was called on, through which that value can be written; read
    through it, the value is the [v] just assigned; [q = p = v] leaves [v] in
    both properties, and [(p = v) = w] leaves [w] in [p]. *)
Theorem write_returns_stored_value {T : Type} `{regular T}
    (c : context) (P : type) (p a : address) (old v : T) (s : store T) :
  allowed c P false (e_assign (arg_T lvalue)) = true ->
  s !! p = Some old ->
  s !! a = Some v ->
  write c P p a s = ok (impl.value p) (<[p:=v]> s)
  /\ (let* r := write c P p a in load (target r)) s = ok v (<[p:=v]> s)
  /\ (forall q oldq, s !! q = Some oldq ->
        (let* r := write c P p a in write c P q (target r)) s
        = ok (impl.value q) (<[q:=v]> (<[p:=v]> s)))
  /\ (forall b w, <[p:=v]> s !! b = Some w ->
        (let* r := write c P p a in assign_through r b) s
        = ok (impl.value p) (<[p:=w]> s)).
Proof.
  intros Hw Hp Ha.
  pose proof (write_ok _ _ _ _ _ _ _ Hw Hp Ha) as E.
  pose proof (lookup_put_eq _ _ v _ Hp) as Hp'.
  repeat split.
  - exact E.
  - unfold bind. rewrite E. apply load_ok, Hp'.
  - intros q oldq Hq. unfold bind. rewrite E. cbn [target].
    assert (Hq' : is_Some (<[p:=v]> s !! q)).
    { rewrite (lookup_put _ _ _ _ _ Hp). destruct (decide (p = q)); eauto. }
    destruct Hq' as [oldq' Hq'].
    apply (write_ok _ _ _ _ _ _ _ Hw Hq' Hp').
  - intros b w Hb. unfold bind. rewrite E.
    rewrite (assign_through_ok _ _ _ _ _ Hp' Hb), copy_assign_copies.
    rewrite list_insert_insert_eq. reflexivity.
Qed.

Lemma write_returns_stored_value_witness :
  allowed in_owner public_get false (e_assign (arg_T lvalue)) = true
  /\ ([5; 12; 7]%Z : store int) !! 0 = Some 5%Z
  /\ ([5; 12; 7]%Z : store int) !! 1 = Some 12%Z
  /\ write in_owner public_get 0 1 ([5; 12; 7]%Z : store int)
     = ok (impl.value 0) [12; 12; 7]%Z
  /\ (let* r := write in_owner public_get 0 1 in load (target r))
       ([5; 12; 7]%Z : store int) = ok 12%Z [12; 12; 7]%Z
  /\ (forall q oldq, ([5; 12; 7]%Z : store int) !! q = Some oldq ->
        (let* r := write in_owner public_get 0 1 in write in_owner public_get q (target r))
          ([5; 12; 7]%Z : store int)
        = ok (impl.value q) (<[q:=12%Z]> [12; 12; 7]%Z))
  /\ (forall b w, ([12; 12; 7]%Z : store int) !! b = Some w ->
        (let* r := write in_owner public_get 0 1 in assign_through r b)
          ([5; 12; 7]%Z : store int)
        = ok (impl.value 0) [w; 12; 7]%Z).
Proof.
  do 3 (split; [reflexivity|]).
  apply (write_returns_stored_value (T:=int) in_owner public_get 0 1 5%Z 12%Z
           [5; 12; 7]%Z); reflexivity.
Defined.

(** C4. Whatever the policy and the caller, a property constructed from a
    value [v] is a new object that stores [v], and a permitted read of it
    gives [v]; constructed without a value it stores [T{}]. *)
Theorem construction_stores_initial_value {T : Type} `{regular T}
    (c : context) (P : type) (v : T) (s : store T) :
  (exists left_over,
      let p := S (length s) in
      let s' := s ++ [left_over; v] in
      construct_from_value c P v s = ok (impl.value p) s'
      /\ s' !! p = Some v
      /\ forall c', allowed c' P false e_to_T = true -> read c' P p s' = ok v s')
  /\ (exists left_over,
      let p := S (length s) in
      let s' := s ++ [left_over; value_init] in
      construct_default c P s = ok (impl.value p) s'
      /\ s' !! p = Some value_init
      /\ forall c', allowed c' P false e_to_T = true -> read c' P p s' = ok value_init s')
  /\ (forall a, s !! a = Some v ->
        construct_from c P a s = construct_from_value c P v s).
Proof.
  assert (G : forall x : T,
    let s' := s ++ [snd (move_construct x); x] in
    (let* value := new_object x in constructor value) s
      = ok (impl.value (S (length s))) s'
    /\ s' !! S (length s) = Some x).
  { intros x. cbn zeta. unfold bind, new_object.
    rewrite (constructor_ok _ _ _ (lookup_new s x)).
    rewrite move_construct_moves, length_app, Nat.add_1_r.
    replace (<[length s := snd (move_construct x)]> (s ++ [x]))
      with (s ++ [snd (move_construct x)]).
    2:{ rewrite insert_app_r_alt by lia. rewrite Nat.sub_diag. reflexivity. }
    rewrite <- app_assoc. split; [reflexivity|].
    rewrite lookup_app_r by lia.
    replace (S (length s) - length s) with 1 by lia. reflexivity. }
  split; [|split].
  3:{ intros a Ha. unfold construct_from, construct_from_value, bind.
      unfold copy_construct_object, bind.
      rewrite (load_ok _ _ _ Ha), copy_construct_copies. unfold new_object.
      rewrite !construct_runs. reflexivity. }
  - exists (snd (move_construct v)). cbn zeta. destruct (G v) as [E L].
    unfold construct_from_value.
    split; [|split; [exact L|]].
    + rewrite <- E. unfold bind, new_object. rewrite construct_runs. reflexivity.
    + intros c' Hr. apply (read_ok _ _ _ _ _ Hr L).
  - exists (snd (move_construct value_init)). cbn zeta.
    destruct (G value_init) as [E L].
    unfold construct_default.
    split; [|split; [exact L|]].
    + rewrite <- E. unfold bind, new_object. rewrite construct_runs. reflexivity.
    + intros c' Hr. apply (read_ok _ _ _ _ _ Hr L).
Qed.

Lemma construction_stores_initial_value_witness :
  regular int
  /\ (exists left_over : int,
      construct_from_value outside public_get 13%Z ([] : store int)
        = ok (impl.value 1) [left_over; 13%Z]
      /\ ([left_over; 13%Z] : store int) !! 1 = Some 13%Z
      /\ forall c', allowed c' public_get false e_to_T = true ->
           read c' public_get 1 ([left_over; 13%Z] : store int)
           = ok 13%Z [left_over; 13%Z])
  /\ (exists left_over : int,
      construct_default outside public_get ([] : store int)
        = ok (impl.value 1) [left_over; 0%Z]
      /\ ([left_over; 0%Z] : store int) !! 1 = Some 0%Z
      /\ forall c', allowed c' public_get false e_to_T = true ->
           read c' public_get 1 ([left_over; 0%Z] : store int)
           = ok 0%Z [left_over; 0%Z])
  /\ (forall a, ([] : store int) !! a = Some 13%Z ->
        construct_from outside public_get a ([] : store int)
        = construct_from_value outside public_get 13%Z []).
Proof.
  split; [exact int_regular|].
  exact (construction_stores_initial_value (T:=int) outside public_get 13%Z []).
Defined.

(** C6. Copying an owner whose property holds [v] makes a new property, at
    another address, that reads [v]; the original still reads [v]; and from
    then on a value written to either of them leaves the other reading [v]. *)
Theorem copy_is_independent {T : Type} `{regular T}
    (c : context) (P : type) (p : address) (v : T) (s : store T) :
  s !! p = Some v ->
  let q := length s in
  let s' := s ++ [v] in
  copy_of c P p s = ok (impl.value q) s'
  /\ q <> p
  /\ s' !! q = Some v
  /\ s' !! p = Some v
  /\ forall c' a w,
       allowed c' P false (e_assign (arg_T lvalue)) = true ->
       allowed c' P false e_to_T = true ->
       s' !! a = Some w ->
       read c' P q s' = ok v s'
       /\ (let* _ := write c' P q a in read c' P p) s' = ok v (<[q:=w]> s')
       /\ (let* _ := write c' P p a in read c' P q) s' = ok v (<[p:=w]> s').
Proof.
  intros Hp q s'.
  assert (Hne : q <> p).
  { intros E. exact (live_is_old _ _ _ Hp (eq_sym E)). }
  assert (Hq' : s' !! q = Some v) by apply lookup_new.
  assert (Hp' : s' !! p = Some v) by apply lookup_old, Hp.
  split; [|split; [exact Hne|split; [exact Hq'|split; [exact Hp'|]]]].
  - unfold copy_of. rewrite construct_runs.
    rewrite (copy_constructor_ok _ _ _ Hp), copy_construct_copies. reflexivity.
  - intros c' a w Hw Hr Ha. split; [|split].
    + apply (read_ok _ _ _ _ _ Hr Hq').
    + unfold bind. rewrite (write_ok _ _ _ _ _ _ _ Hw Hq' Ha).
      apply (read_ok _ _ _ _ _ Hr).
      rewrite list_lookup_insert_ne by exact Hne. exact Hp'.
    + unfold bind. rewrite (write_ok _ _ _ _ _ _ _ Hw Hp' Ha).
      apply (read_ok _ _ _ _ _ Hr).
      rewrite list_lookup_insert_ne by (intros E; apply Hne; symmetry; exact E).
      exact Hq'.
Qed.

Lemma copy_is_independent_witness :
  ([0; 13]%Z : store int) !! 1 = Some 13%Z
  /\ copy_of in_owner public_get_set 1 ([0; 13]%Z : store int)
     = ok (impl.value 2) [0; 13; 13]%Z
  /\ 2 <> 1
  /\ ([0; 13; 13]%Z : store int) !! 2 = Some 13%Z
  /\ ([0; 13; 13]%Z : store int) !! 1 = Some 13%Z
  /\ forall c' a w,
       allowed c' public_get_set false (e_assign (arg_T lvalue)) = true ->
       allowed c' public_get_set false e_to_T = true ->
       ([0; 13; 13]%Z : store int) !! a = Some w ->
       read c' public_get_set 2 ([0; 13; 13]%Z : store int) = ok 13%Z [0; 13; 13]%Z
       /\ (let* _ := write c' public_get_set 2 a in read c' public_get_set 1)
            ([0; 13; 13]%Z : store int) = ok 13%Z [0; 13; w]%Z
       /\ (let* _ := write c' public_get_set 1 a in read c' public_get_set 2)
            ([0; 13; 13]%Z : store int) = ok 13%Z [0; w; 13]%Z.
Proof.
  split; [reflexivity|].
  exact (copy_is_independent (T:=int) in_owner public_get_set 1 13%Z [0; 13]%Z eq_refl).
Defined.

(** main.cc:71-77, [copy_test]: the assertion sees 13. *)
Example copy_test_passes : exists s, tests.copy_test [] = ok 13%Z s.
Proof. eexists. reflexivity. Qed.

(** C7. Moving an owner whose property holds [v] makes a new property that
    reads [v]; the property moved from is left holding what the move
    constructor of the value type leaves in its source. *)
Theorem move_carries_value {T : Type} `{regular T}
    (c : context) (P : type) (p : address) (v : T) (s : store T) :
  s !! p = Some v ->
  let q := length s in
  let s' := <[p := snd (move_construct v)]> s ++ [v] in
  moved_from c P p s = ok (impl.value q) s'
  /\ q <> p
  /\ s' !! q = Some v
  /\ s' !! p = Some (snd (move_construct v))
  /\ forall c', allowed c' P false e_to_T = true -> read c' P q s' = ok v s'.
Proof.
  intros Hp q s'.
  assert (Hq' : s' !! q = Some v).
  { unfold s', q. rewrite <- (length_insert s p (snd (move_construct v))).
    apply lookup_new. }
  split; [|split; [|split; [exact Hq'|split]]].
  - unfold moved_from. rewrite construct_runs.
    rewrite (move_constructor_ok _ _ _ Hp), move_construct_moves. reflexivity.
  - intros E. exact (live_is_old _ _ _ Hp (eq_sym E)).
  - unfold s'. eapply lookup_old, lookup_put_eq, Hp.
  - intros c' Hr. apply (read_ok _ _ _ _ _ Hr Hq').
Qed.

Lemma move_carries_value_witness :
  ([0; 13]%Z : store int) !! 1 = Some 13%Z
  /\ moved_from in_owner public_get_set 1 ([0; 13]%Z : store int)
     = ok (impl.value 2) [0; 13; 13]%Z
  /\ 2 <> 1
  /\ ([0; 13; 13]%Z : store int) !! 2 = Some 13%Z
  /\ ([0; 13; 13]%Z : store int) !! 1 = Some 13%Z
  /\ forall c', allowed c' public_get_set false e_to_T = true ->
       read c' public_get_set 2 ([0; 13; 13]%Z : store int) = ok 13%Z [0; 13; 13]%Z.
Proof.
  split; [reflexivity|].
  exact (move_carries_value (T:=int) in_owner public_get_set 1 13%Z [0; 13]%Z eq_refl).
Defined.

(** main.cc:88-94, [move_test]: the assertion sees 13. *)
Example move_test_passes : exists s, tests.move_test [] = ok 13%Z s.
Proof. eexists. reflexivity. Qed.

(** C8. [a = b] and, for two different objects, [a = std::move(b)] between
    properties of one type compile for every caller under every policy and
    leave in [a] the value [b] held: a permitted read of [a] gives it. *)
Theorem assignment_transfers_value {T : Type} `{regular T}
    (c : context) (P : type) (a b : address) (old v : T) (s : store T) :
  s !! a = Some old ->
  s !! b = Some v ->
  assign_from c P a b s = ok (impl.value a) (<[a:=v]> s)
  /\ <[a:=v]> s !! a = Some v
  /\ (forall c', allowed c' P false e_to_T = true ->
        (let* _ := assign_from c P a b in read c' P a) s = ok v (<[a:=v]> s))
  /\ (a <> b ->
      let s' := <[b := snd (move_assign old v)]> (<[a:=v]> s) in
      assign_from_moved c P a b s = ok (impl.value a) s'
      /\ s' !! a = Some v
      /\ forall c', allowed c' P false e_to_T = true ->
           (let* _ := assign_from_moved c P a b in read c' P a) s = ok v s').
Proof.
  intros Ha Hb.
  assert (E : assign_from c P a b s = ok (impl.value a) (<[a:=v]> s)).
  { rewrite assign_from_runs, (copy_assignment_ok _ _ _ _ _ Ha Hb), copy_assign_copies.
    reflexivity. }
  pose proof (lookup_put_eq _ _ v _ Ha) as Ha'.
  split; [exact E|split; [exact Ha'|split]].
  - intros c' Hr. unfold bind. rewrite E. apply (read_ok _ _ _ _ _ Hr Ha').
  - intros Hne s'.
    assert (E' : assign_from_moved c P a b s = ok (impl.value a) s').
    { rewrite assign_from_moved_runs, (move_assignment_ok _ _ _ _ _ Ha Hb Hne).
      rewrite move_assign_moves. reflexivity. }
    assert (Ha'' : s' !! a = Some v).
    { unfold s'. rewrite list_lookup_insert_ne by (intros F; apply Hne; symmetry; exact F).
      exact Ha'. }
    split; [exact E'|split; [exact Ha''|]].
    intros c' Hr. unfold bind. rewrite E'. apply (read_ok _ _ _ _ _ Hr Ha'').
Qed.

Lemma assignment_transfers_value_witness :
  ([0; 13]%Z : store int) !! 0 = Some 0%Z
  /\ ([0; 13]%Z : store int) !! 1 = Some 13%Z
  /\ assign_from outside private_get_set 0 1 ([0; 13]%Z : store int)
     = ok (impl.value 0) [13; 13]%Z
  /\ ([13; 13]%Z : store int) !! 0 = Some 13%Z
  /\ (forall c', allowed c' private_get_set false e_to_T = true ->
        (let* _ := assign_from outside private_get_set 0 1 in read c' private_get_set 0)
          ([0; 13]%Z : store int) = ok 13%Z [13; 13]%Z)
  /\ (0 <> 1 ->
      assign_from_moved outside private_get_set 0 1 ([0; 13]%Z : store int)
      = ok (impl.value 0) [13; 13]%Z
      /\ ([13; 13]%Z : store int) !! 0 = Some 13%Z
      /\ forall c', allowed c' private_get_set false e_to_T = true ->
           (let* _ := assign_from_moved outside private_get_set 0 1
            in read c' private_get_set 0) ([0; 13]%Z : store int) = ok 13%Z [13; 13]%Z).
Proof.
  do 2 (split; [reflexivity|]).
  exact (assignment_transfers_value (T:=int) outside private_get_set 0 1 0%Z 13%Z
           [0; 13]%Z eq_refl eq_refl).
Defined.

(** main.cc:79-86 and 96-103, [copy_assigne_test] and [move_assigne_test]:
    the assertions see 13. *)
Example assigne_tests_pass :
  (exists s, tests.copy_assigne_test [] = ok 13%Z s)
  /\ (exists s, tests.move_assigne_test [] = ok 13%Z s).
Proof. split; eexists; reflexivity. Qed.

(** C10. A write does not change what it reads from: after the copy
    assignment [p = a] of a property [a] (which may be [p] itself), [a] holds
    what it held; after the write [p = a] of an object [a] of the value type
    (which may be the stored value itself), [a] holds what it held; and a
    write of a value that was no object leaves every object but [p] as it
    was. *)
Theorem write_leaves_source {T : Type} `{regular T}
    (c : context) (P : type) (p a : address) (old v : T) (s : store T) :
  s !! p = Some old ->
  s !! a = Some v ->
  (exists s', assign_from c P p a s = ok (impl.value p) s'
              /\ s' !! a = Some v /\ s' !! p = Some v)
  /\ (allowed c P false (e_assign (arg_T lvalue)) = true ->
      exists s', write c P p a s = ok (impl.value p) s'
                 /\ s' !! a = Some v /\ s' !! p = Some v)
  /\ (allowed c P false (e_assign (arg_T rvalue)) = true ->
      forall x, exists s', write_value c P p x s = ok (impl.value p) s'
                 /\ s' !! p = Some x
                 /\ forall b, b <> p -> b < length s -> s' !! b = s !! b).
Proof.
  intros Hp Ha.
  assert (Ha' : <[p:=v]> s !! a = Some v).
  { rewrite (lookup_put _ _ _ _ _ Hp). destruct (decide (p = a)); [reflexivity|exact Ha]. }
  pose proof (lookup_put_eq _ _ v _ Hp) as Hp'.
  split; [|split].
  - exists (<[p:=v]> s). split; [|split; assumption].
    rewrite assign_from_runs, (copy_assignment_ok _ _ _ _ _ Hp Ha), copy_assign_copies.
    reflexivity.
  - intros Hw. exists (<[p:=v]> s). split; [|split; assumption].
    apply (write_ok _ _ _ _ _ _ _ Hw Hp Ha).
  - intros Hw x. exists (<[p:=x]> (s ++ [x])). split; [|split].
    + apply (write_value_ok _ _ _ _ _ _ Hw Hp).
    + eapply lookup_put_eq, lookup_old, Hp.
    + intros b Hne Hlt.
      rewrite list_lookup_insert_ne by (intros F; apply Hne; symmetry; exact F).
      apply lookup_app_l, Hlt.
Qed.

Lemma write_leaves_source_witness :
  ([0; 13]%Z : store int) !! 0 = Some 0%Z
  /\ ([0; 13]%Z : store int) !! 1 = Some 13%Z
  /\ (exists s', assign_from outside public_get_set 0 1 ([0; 13]%Z : store int)
                 = ok (impl.value 0) s'
                 /\ s' !! 1 = Some 13%Z /\ s' !! 0 = Some 13%Z)
  /\ (allowed outside public_get_set false (e_assign (arg_T lvalue)) = true ->
      exists s', write outside public_get_set 0 1 ([0; 13]%Z : store int)
                 = ok (impl.value 0) s'
                 /\ s' !! 1 = Some 13%Z /\ s' !! 0 = Some 13%Z)
  /\ (allowed outside public_get_set false (e_assign (arg_T rvalue)) = true ->
      forall x, exists s', write_value outside public_get_set 0 x ([0; 13]%Z : store int)
                 = ok (impl.value 0) s'
                 /\ s' !! 0 = Some x
                 /\ forall b, b <> 0 -> b < 2 -> s' !! b = ([0; 13]%Z : store int) !! b).
Proof.
  do 2 (split; [reflexivity|]).
  exact (write_leaves_source (T:=int) outside public_get_set 0 1 0%Z 13%Z
           [0; 13]%Z eq_refl eq_refl).
Defined.

(** C3, as the code has it. Under a policy that exposes the read accessor a
    caller outside the owner has one read path, the conversion function the
    policy selects, called on a property that is not const: it refers to the
    stored value, as [T&] under [public_get_set] and as [const T&] under
    [public_get], where no [T&] can be had. The const-qualified read path is
    [data_storage::value() const]: on a const property it gives a read-only
    reference to the stored value, in the owner; outside the owner [value]
    cannot be called. *)
Theorem read_path_by_policy {T : Type} `{value_type T}
    (P : type) (p : address) (s : store T) :
  is_public_get P = true ->
  resolve_on P false e_to_T = selected 0 (getter P)
  /\ fn_access (getter P) = acc_public
  /\ fn_return (getter P) = (if is_public_set P then ret_T_ref else ret_const_T_ref)
  /\ evaluate outside P false e_to_T p p s
     = ok {| target := p; read_only := negb (is_public_set P) |} s
  /\ allowed outside P false e_to_T_ref = is_public_set P
  /\ evaluate in_owner P true e_value p p s = ok (impl.value_const p) s
  /\ allowed outside P true e_value = false
  /\ allowed outside P false e_value = false.
Proof.
  intros g. split; [apply resolve_to_T|].
  assert (A : forall b, allowed outside P b e_value = false).
  { intros b. unfold allowed, well_formed. fold (resolve_on P).
    rewrite resolve_value. reflexivity. }
  assert (V : evaluate in_owner P true e_value p p s = ok (impl.value_const p) s).
  { unfold evaluate. rewrite resolve_value. reflexivity. }
  assert (R : allowed outside P false e_to_T_ref = is_public_set P).
  { unfold allowed, well_formed. fold (resolve_on P). rewrite resolve_to_T_ref.
    unfold getter. rewrite g. destruct (is_public_set P); reflexivity. }
  assert (E : evaluate outside P false e_to_T p p s
              = ok {| target := p; read_only := negb (is_public_set P) |} s).
  { unfold evaluate. rewrite resolve_to_T. unfold getter. rewrite g.
    destruct (is_public_set P); reflexivity. }
  unfold getter. rewrite g.
  repeat split; try assumption; try apply A; destruct (is_public_set P); reflexivity.
Qed.

Lemma read_path_by_policy_witness :
  is_public_get public_get = true
  /\ resolve_on public_get false e_to_T = selected 0 decl_get_public
  /\ fn_access decl_get_public = acc_public
  /\ fn_return decl_get_public = ret_const_T_ref
  /\ evaluate outside public_get false e_to_T 1 1 ([0; 13]%Z : store int)
     = ok {| target := 1; read_only := true |} [0; 13]%Z
  /\ allowed outside public_get false e_to_T_ref = false
  /\ evaluate in_owner public_get true e_value 1 1 ([0; 13]%Z : store int)
     = ok (impl.value_const 1) [0; 13]%Z
  /\ allowed outside public_get true e_value = false
  /\ allowed outside public_get false e_value = false.
Proof.
  split; [reflexivity|].
  exact (read_path_by_policy (T:=int) public_get 1 [0; 13]%Z eq_refl).
Defined.

(** C3, as stated, fails. Both [public_get] and [public_get_set] expose the
    read accessor; under [public_get] there is no read path that gives a
    mutable reference, and under either policy nothing outside the owner
    reads a const property: no conversion function is const-qualified, and
    [value] is out of reach. *)
Lemma no_const_read_path_outside :
  is_public_get public_get = true
  /\ is_public_get public_get_set = true
  /\ allowed outside public_get false e_to_T_ref = false
  /\ (allowed outside public_get true e_to_T = false
      /\ allowed outside public_get true e_to_T_ref = false
      /\ allowed outside public_get true e_value = false)
  /\ (allowed outside public_get_set true e_to_T = false
      /\ allowed outside public_get_set true e_to_T_ref = false
      /\ allowed outside public_get_set true e_value = false)
  /\ List.filter fn_const property_declarations = [].
Proof. repeat split; reflexivity. Qed.

(* ===================================================================== *)
(** ** Further properties of the header *)
(* ===================================================================== *)

(** *** Who can use what *)

Ltac by_cases_on P :=
  let sg := fresh "sg" in
  pose proof (is_public_set_get P) as sg;
  cbv -[is_public_get is_public_set] in *;
  destruct (is_public_get P), (is_public_set P);
  solve [ reflexivity | discriminate | discriminate (sg eq_refl) ].

(** X1. In the implementation of the owner both accessors of a non-const
    property can be used under every policy: converting it to its value and
    assigning a value to it. A reference that can be written through is to
    be had by conversion under every policy but [public_get], where the
    conversion function returns [const TValue&]. *)
Theorem owner_uses_both_accessors :
  forall (P : type) (cat : value_category),
    allowed in_owner P false e_to_T = true
    /\ allowed in_owner P false (e_assign (arg_T cat)) = true
    /\ allowed in_owner P false e_to_T_ref
       = negb (is_public_get P && negb (is_public_set P))
    /\ allowed in_owner public_get false e_to_T_ref = false.
Proof.
  intros P cat. split; [|split; [|split]].
  - rewrite allowed_read. unfold getter.
    destruct (is_public_get P), (is_public_set P); reflexivity.
  - rewrite allowed_write. unfold setter. destruct (is_public_set P); reflexivity.
  - unfold allowed, well_formed. fold (resolve_on P). rewrite resolve_to_T_ref.
    unfold getter. destruct (is_public_get P), (is_public_set P); reflexivity.
  - reflexivity.
Qed.

(** X2. The requires-clauses never leave a choice: whatever the policy, of
    the three conversion functions exactly one is a candidate, of the two
    assignments of a value exactly one, and no expression about a property
    is ambiguous. *)
Theorem requires_clauses_select_one :
  forall (P : type),
    List.filter (fun m => fn_requires m P) (property_lookup fn_conversion) = [getter P]
    /\ List.filter (fun m => fn_requires m P)
         [decl_set_public; decl_set_private] = [setter P]
    /\ forall (object_is_const : bool) (e : expression),
         resolve_on P object_is_const e <> ambiguous.
Proof.
  intros P. split; [|split].
  - by_cases_on P.
  - by_cases_on P.
  - intros [|] [[|[]|[]]|[|[]|[]]| | |]; by_cases_on P.
Qed.

(** X3. A const property is closed to its conversion functions and its
    assignment operators, for every caller and under every policy: none of
    them is const-qualified. What is left is [value() const], for the owner. *)
Theorem const_property_is_closed :
  forall (c : context) (P : type) (a : argument),
    allowed c P true e_to_T = false
    /\ allowed c P true e_to_T_ref = false
    /\ allowed c P true (e_assign a) = false
    /\ allowed in_owner P true e_value = true
    /\ allowed outside P true e_value = false.
Proof.
  intros c P a. split; [|split; [|split; [|split]]].
  - unfold allowed, well_formed. fold (resolve_on P).
    rewrite resolve_to_T_const; reflexivity.
  - unfold allowed, well_formed. fold (resolve_on P).
    rewrite resolve_to_T_const; reflexivity.
  - unfold allowed, well_formed. fold (resolve_on P).
    assert (E : resolve_on P true (e_assign a) = no_viable_function).
    { destruct a as [|[]|[]]; by_cases_on P. }
    rewrite E. reflexivity.
  - unfold allowed, well_formed. fold (resolve_on P).
    rewrite resolve_value. reflexivity.
  - unfold allowed, well_formed. fold (resolve_on P).
    rewrite resolve_value. reflexivity.
Qed.

(** *** References to the stored value *)

Section references.
Context {T : Type} `{value_type T}.
Implicit Types (s : store T) (p q a b : address) (v w old : T) (P : type) (c : context).

Lemma bind_reference_runs c P p :
  allowed c P false e_to_T_ref = true ->
  bind_reference (T:=T) c P p = ret (impl.value p).
Proof.
  unfold allowed, well_formed, bind_reference, evaluate. fold (resolve_on P).
  rewrite resolve_to_T_ref. unfold getter.
  destruct (is_public_get P), (is_public_set P), c; cbn;
    intros E; try discriminate E; reflexivity.
Qed.

Lemma reference_allows_read c P :
  allowed c P false e_to_T_ref = true -> allowed c P false e_to_T = true.
Proof.
  rewrite allowed_read.
  unfold allowed, well_formed. fold (resolve_on P).
  rewrite resolve_to_T_ref. unfold getter.
  destruct (is_public_get P), (is_public_set P), c; cbn;
    intros E; try discriminate E; reflexivity.
Qed.

Lemma call_value_runs P (object_is_const : bool) p :
  call_value (T:=T) in_owner P object_is_const p =
  ret (if object_is_const then impl.value_const p else impl.value p).
Proof.
  unfold call_value, evaluate. rewrite resolve_value.
  destruct object_is_const; reflexivity.
Qed.
End references.

(** X4. Under [public_get] the read accessor gives a read-only reference to
    the stored value, to the owner as to everyone else: assigning through it
    does not compile, nor does binding the property to a [TValue&]. *)
Theorem public_get_reference_is_read_only {T : Type} `{value_type T}
    (c : context) (p b : address) (s : store T) :
  evaluate c public_get false e_to_T p p s = ok (impl.value_const p) s
  /\ (let* r := evaluate c public_get false e_to_T p p in assign_through r b) s
     = ill_formed
  /\ bind_reference c public_get p s = ill_formed.
Proof. destruct c; repeat split; reflexivity. Qed.

(** X5. Where a property can be bound to a [TValue&], the reference is the
    stored value itself and no copy of it: a value assigned through the
    reference is what the property reads afterwards. *)
Theorem reference_aliases_stored_value {T : Type} `{regular T}
    (c : context) (P : type) (p b : address) (old w : T) (s : store T) :
  allowed c P false e_to_T_ref = true ->
  s !! p = Some old ->
  s !! b = Some w ->
  bind_reference c P p s = ok (impl.value p) s
  /\ (let* r := bind_reference c P p in assign_through r b) s
     = ok (impl.value p) (<[p:=w]> s)
  /\ (let* r := bind_reference c P p in
      let* _ := assign_through r b in
      read c P p) s = ok w (<[p:=w]> s).
Proof.
  intros Hc Hp Hb.
  pose proof (reference_allows_read _ _ Hc) as Hr.
  rewrite (bind_reference_runs (T:=T) _ _ p Hc). unfold bind, ret.
  rewrite (assign_through_ok _ _ _ _ _ Hp Hb), copy_assign_copies.
  repeat split.
  apply (read_ok _ _ _ _ _ Hr), (lookup_put_eq _ _ _ _ Hp).
Qed.

Lemma reference_aliases_stored_value_witness :
  allowed in_owner private_get_set false e_to_T_ref = true
  /\ ([5; 12]%Z : store int) !! 0 = Some 5%Z
  /\ ([5; 12]%Z : store int) !! 1 = Some 12%Z
  /\ bind_reference in_owner private_get_set 0 ([5; 12]%Z : store int)
     = ok (impl.value 0) [5; 12]%Z
  /\ (let* r := bind_reference in_owner private_get_set 0 in assign_through r 1)
       ([5; 12]%Z : store int) = ok (impl.value 0) [12; 12]%Z
  /\ (let* r := bind_reference in_owner private_get_set 0 in
      let* _ := assign_through r 1 in
      read in_owner private_get_set 0) ([5; 12]%Z : store int) = ok 12%Z [12; 12]%Z.
Proof.
  do 3 (split; [reflexivity|]).
  exact (reference_aliases_stored_value (T:=int) in_owner private_get_set 0 1 5%Z 12%Z
           [5; 12]%Z eq_refl eq_refl eq_refl).
Defined.

(** X6. [p++] on a property of [int], where the property can be bound to an
    [int&] (main.cc:67): below [INT_MAX] the expression is the old value and
    the property reads one more afterwards; at [INT_MAX] the increment is
    undefined. Under [public_get] it does not compile. *)
Theorem increment_through_accessor
    (c : context) (P : type) (p : address) (v : int) (s : store int) :
  allowed c P false e_to_T_ref = true ->
  s !! p = Some v ->
  ((v < INT_MAX)%Z ->
     increment c P p s = ok v (<[p := (v + 1)%Z]> s)
     /\ (let* _ := increment c P p in read c P p) s
        = ok (v + 1)%Z (<[p := (v + 1)%Z]> s))
  /\ (v = INT_MAX -> increment c P p s = undefined_behaviour)
  /\ (forall c', increment c' public_get p s = ill_formed).
Proof.
  intros Hc Hp.
  pose proof (reference_allows_read _ _ Hc) as Hr.
  pose proof (lookup_put_eq s p (v + 1)%Z v Hp) as Hp'.
  assert (E : increment c P p s =
              if (v <? INT_MAX)%Z then ok v (<[p := (v + 1)%Z]> s)
              else undefined_behaviour).
  { unfold increment. rewrite (bind_reference_runs (T:=int) _ _ p Hc).
    unfold post_increment, impl.value, bind, ret; cbn [read_only target].
    unfold load, int in *. rewrite Hp.
    destruct (v <? INT_MAX)%Z; [|reflexivity].
    unfold put. apply lookup_lt_Some, Nat.ltb_lt in Hp. rewrite Hp. reflexivity. }
  split; [|split].
  - intros Hlt. apply Z.ltb_lt in Hlt. rewrite Hlt in E. split; [exact E|].
    unfold bind. rewrite E.
    apply (read_ok _ _ _ _ _ Hr Hp').
  - intros ->. rewrite E, Z.ltb_irrefl. reflexivity.
  - intros []; reflexivity.
Qed.

Lemma increment_through_accessor_witness :
  allowed outside public_get_set false e_to_T_ref = true
  /\ ([0; 12]%Z : store int) !! 1 = Some 12%Z
  /\ ((12 < INT_MAX)%Z ->
        increment outside public_get_set 1 ([0; 12]%Z : store int) = ok 12%Z [0; 13]%Z
        /\ (let* _ := increment outside public_get_set 1 in read outside public_get_set 1)
             ([0; 12]%Z : store int) = ok 13%Z [0; 13]%Z)
  /\ (12%Z = INT_MAX ->
        increment outside public_get_set 1 ([0; 12]%Z : store int) = undefined_behaviour)
  /\ (forall c', increment c' public_get 1 ([0; 12]%Z : store int) = ill_formed).
Proof.
  do 2 (split; [reflexivity|]).
  exact (increment_through_accessor outside public_get_set 1 12%Z [0; 12]%Z
           eq_refl eq_refl).
Defined.

(** *** What the members do to the store, for any value type *)

Section delegation.
Context {T : Type} `{value_type T}.
Implicit Types (s : store T) (p q a b : address) (v w x old : T) (P : type) (c : context).

Lemma construct_parameter_ok x s :
  (let* value := new_object x in constructor value) s
  = ok (impl.value (S (length s)))
       (s ++ [snd (move_construct x); fst (move_construct x)]).
Proof.
  unfold bind, new_object.
  rewrite (constructor_ok _ _ _ (lookup_new s x)).
  rewrite length_app, Nat.add_1_r.
  rewrite insert_app_r_alt by lia. rewrite Nat.sub_diag. cbn [list_insert].
  rewrite <- app_assoc. reflexivity.
Qed.

Lemma lookup_two_new s x y : (s ++ [x; y]) !! S (length s) = Some y.
Proof.
  rewrite lookup_app_r by lia.
  replace (S (length s) - length s) with 1 by lia. reflexivity.
Qed.

Lemma lookup_before_new s (l : list T) b : b < length s -> (s ++ l) !! b = s !! b.
Proof. intros Hb. apply lookup_app_l, Hb. Qed.
End delegation.

(** X7. The policy guards the assignment of a value, not the assignment of
    a property: [p = property{x}] compiles for every caller under every
    policy, [private_get_set] and [public_get] included, and leaves [x] in
    [p]; the objects that were there besides [p] are as they were. *)
Theorem write_through_temporary_is_public {T : Type} `{regular T}
    (c : context) (P : type) (p : address) (old x : T) (s : store T) :
  s !! p = Some old ->
  exists s',
    write_through_temporary c P p x s = ok (impl.value p) s'
    /\ s' !! p = Some x
    /\ (forall b, b < length s -> b <> p -> s' !! b = s !! b)
    /\ (forall c', allowed c' P false e_to_T = true -> read c' P p s' = ok x s').
Proof.
  intros Hp.
  set (s1 := s ++ [snd (move_construct x); fst (move_construct x)]).
  assert (E1 : construct_from_value c P x s = ok (impl.value (S (length s))) s1).
  { unfold construct_from_value, s1. rewrite <- construct_parameter_ok.
    unfold bind, new_object. rewrite construct_runs. reflexivity. }
  assert (Hp1 : s1 !! p = Some old).
  { unfold s1. rewrite lookup_before_new; [exact Hp | eapply lookup_lt_Some, Hp]. }
  assert (Ht1 : s1 !! S (length s) = Some x).
  { unfold s1. rewrite lookup_two_new, move_construct_moves. reflexivity. }
  assert (Hne : p <> S (length s)).
  { apply lookup_lt_Some in Hp. lia. }
  set (s' := <[S (length s) := snd (move_assign old x)]> (<[p := x]> s1)).
  assert (Hp' : s' !! p = Some x).
  { unfold s'. rewrite list_lookup_insert_ne by (intros F; apply Hne; symmetry; exact F).
    apply (lookup_put_eq _ _ _ _ Hp1). }
  exists s'. split; [|split; [exact Hp'|split]].
  - unfold write_through_temporary, bind. rewrite E1. cbn [target impl.value].
    rewrite assign_from_moved_runs, (move_assignment_ok _ _ _ _ _ Hp1 Ht1 Hne).
    rewrite move_assign_moves. reflexivity.
  - intros b Hb Hbp. unfold s'.
    rewrite list_lookup_insert_ne by lia.
    rewrite list_lookup_insert_ne by (intros F; apply Hbp; symmetry; exact F).
    unfold s1. apply lookup_before_new, Hb.
  - intros c' Hr. apply (read_ok _ _ _ _ _ Hr Hp').
Qed.

Lemma write_through_temporary_is_public_witness :
  ([0; 5]%Z : store int) !! 1 = Some 5%Z
  /\ exists s' : store int,
       write_through_temporary outside private_get_set 1 13%Z ([0; 5]%Z : store int)
       = ok (impl.value 1) s'
       /\ s' !! 1 = Some 13%Z
       /\ (forall b, b < 2 -> b <> 1 -> s' !! b = ([0; 5]%Z : store int) !! b)
       /\ (forall c', allowed c' private_get_set false e_to_T = true ->
             read c' private_get_set 1 s' = ok 13%Z s').
Proof.
  split; [reflexivity|].
  exact (write_through_temporary_is_public (T:=int) outside private_get_set 1 5%Z 13%Z
           [0; 5]%Z eq_refl).
Defined.

(** X8. Assigning a property to itself: the copy assignment [p = p] and the
    write of the stored value to its own property leave the store as it was;
    [p = std::move(p)] leaves in [p] what the value type makes of a move onto
    itself, and nothing else changes. *)
Theorem self_assignment {T : Type} `{regular T}
    (c : context) (P : type) (p : address) (v : T) (s : store T) :
  s !! p = Some v ->
  assign_from c P p p s = ok (impl.value p) s
  /\ (allowed c P false (e_assign (arg_T lvalue)) = true ->
      write c P p p s = ok (impl.value p) s)
  /\ assign_from_moved c P p p s = ok (impl.value p) (<[p := move_assign_self v]> s).
Proof.
  intros Hp. split; [|split].
  - rewrite assign_from_runs, (copy_assignment_ok _ _ _ _ _ Hp Hp), copy_assign_copies.
    rewrite list_insert_id by exact Hp. reflexivity.
  - intros Hw. rewrite (write_ok _ _ _ _ _ _ _ Hw Hp Hp).
    rewrite list_insert_id by exact Hp. reflexivity.
  - rewrite assign_from_moved_runs.
    unfold move_assignment, move_assign_objects, bind.
    rewrite (load_ok _ _ _ Hp), bool_decide_eq_true_2 by reflexivity.
    rewrite (load_ok _ _ _ Hp), (put_ok _ _ _ _ Hp). reflexivity.
Qed.

Lemma self_assignment_witness :
  ([0; 13]%Z : store int) !! 1 = Some 13%Z
  /\ assign_from outside public_get_set 1 1 ([0; 13]%Z : store int)
     = ok (impl.value 1) [0; 13]%Z
  /\ (allowed outside public_get_set false (e_assign (arg_T lvalue)) = true ->
      write outside public_get_set 1 1 ([0; 13]%Z : store int)
      = ok (impl.value 1) [0; 13]%Z)
  /\ assign_from_moved outside public_get_set 1 1 ([0; 13]%Z : store int)
     = ok (impl.value 1) [0; 13]%Z.
Proof.
  split; [reflexivity|].
  exact (self_assignment (T:=int) outside public_get_set 1 13%Z [0; 13]%Z eq_refl).
Defined.

(** X9. The assignments add nothing to what the value type does, whatever
    the value type: the write accessor and the copy assignment store what
    the copy assignment of the value type makes of the old stored value and
    the source; the move assignment stores in the target and leaves in the
    source what the move assignment of the value type yields. *)
Theorem assignments_delegate {T : Type} `{value_type T}
    (c : context) (P : type) (p a : address) (old v : T) (s : store T) :
  s !! p = Some old ->
  s !! a = Some v ->
  (allowed c P false (e_assign (arg_T lvalue)) = true ->
     write c P p a s = ok (impl.value p) (<[p := copy_assign old v]> s))
  /\ assign_from c P p a s = ok (impl.value p) (<[p := copy_assign old v]> s)
  /\ (p <> a ->
      assign_from_moved c P p a s
      = ok (impl.value p)
           (<[a := snd (move_assign old v)]> (<[p := fst (move_assign old v)]> s))).
Proof.
  intros Hp Ha. split; [|split].
  - intros Hw. unfold write. rewrite (write_runs _ _ _ _ _ Hw).
    apply (assign_value_ok _ _ _ _ _ Hp Ha).
  - rewrite assign_from_runs. apply (copy_assignment_ok _ _ _ _ _ Hp Ha).
  - intros Hne. rewrite assign_from_moved_runs.
    apply (move_assignment_ok _ _ _ _ _ Hp Ha Hne).
Qed.

Lemma assignments_delegate_witness :
  ([0; 13]%Z : store int) !! 0 = Some 0%Z
  /\ ([0; 13]%Z : store int) !! 1 = Some 13%Z
  /\ (allowed in_owner public_get false (e_assign (arg_T lvalue)) = true ->
        write in_owner public_get 0 1 ([0; 13]%Z : store int)
        = ok (impl.value 0) [13; 13]%Z)
  /\ assign_from in_owner public_get 0 1 ([0; 13]%Z : store int)
     = ok (impl.value 0) [13; 13]%Z
  /\ (0 <> 1 ->
      assign_from_moved in_owner public_get 0 1 ([0; 13]%Z : store int)
      = ok (impl.value 0) [13; 13]%Z).
Proof.
  do 2 (split; [reflexivity|]).
  exact (assignments_delegate (T:=int) in_owner public_get 0 1 0%Z 13%Z [0; 13]%Z
           eq_refl eq_refl).
Defined.

(** X10. An assignment to a property makes no object and changes none but
    its target and, when it moves, its source: every other property, of this
    owner or another, is as it was, whatever the value type. *)
Theorem assignment_changes_only_its_operands {T : Type} `{value_type T}
    (c : context) (P : type) (p a : address) (old v : T) (s : store T) :
  s !! p = Some old ->
  s !! a = Some v ->
  (allowed c P false (e_assign (arg_T lvalue)) = true ->
     exists s', write c P p a s = ok (impl.value p) s'
       /\ length s' = length s
       /\ forall b, b <> p -> s' !! b = s !! b)
  /\ (exists s', assign_from c P p a s = ok (impl.value p) s'
       /\ length s' = length s
       /\ forall b, b <> p -> s' !! b = s !! b)
  /\ (exists s', assign_from_moved c P p a s = ok (impl.value p) s'
       /\ length s' = length s
       /\ forall b, b <> p -> b <> a -> s' !! b = s !! b).
Proof.
  intros Hp Ha.
  assert (F : forall w b, b <> p -> <[p := w]> s !! b = s !! b).
  { intros w b Hb. apply list_lookup_insert_ne. intros E. apply Hb. symmetry. exact E. }
  split; [|split].
  - intros Hw. exists (<[p := copy_assign old v]> s). split; [|split].
    + unfold write. rewrite (write_runs _ _ _ _ _ Hw).
      apply (assign_value_ok _ _ _ _ _ Hp Ha).
    + apply length_insert.
    + apply F.
  - exists (<[p := copy_assign old v]> s). split; [|split].
    + rewrite assign_from_runs. apply (copy_assignment_ok _ _ _ _ _ Hp Ha).
    + apply length_insert.
    + apply F.
  - destruct (decide (p = a)) as [<-|Hne].
    + exists (<[p := move_assign_self old]> s). split; [|split].
      * rewrite assign_from_moved_runs.
        unfold move_assignment, move_assign_objects, bind.
        rewrite (load_ok _ _ _ Hp), bool_decide_eq_true_2 by reflexivity.
        rewrite (load_ok _ _ _ Hp), (put_ok _ _ _ _ Hp). reflexivity.
      * apply length_insert.
      * intros b Hb _. apply F, Hb.
    + exists (<[a := snd (move_assign old v)]> (<[p := fst (move_assign old v)]> s)).
      split; [|split].
      * rewrite assign_from_moved_runs.
        apply (move_assignment_ok _ _ _ _ _ Hp Ha Hne).
      * rewrite !length_insert. reflexivity.
      * intros b Hb Hb'.
        rewrite list_lookup_insert_ne by (intros E; apply Hb'; symmetry; exact E).
        apply F, Hb.
Qed.

Lemma assignment_changes_only_its_operands_witness :
  ([0; 13; 7]%Z : store int) !! 0 = Some 0%Z
  /\ ([0; 13; 7]%Z : store int) !! 1 = Some 13%Z
  /\ (allowed outside public_get_set false (e_assign (arg_T lvalue)) = true ->
        exists s' : store int,
          write outside public_get_set 0 1 ([0; 13; 7]%Z : store int)
          = ok (impl.value 0) s'
          /\ length s' = 3
          /\ forall b, b <> 0 -> s' !! b = ([0; 13; 7]%Z : store int) !! b)
  /\ (exists s' : store int,
        assign_from outside public_get_set 0 1 ([0; 13; 7]%Z : store int)
        = ok (impl.value 0) s'
        /\ length s' = 3
        /\ forall b, b <> 0 -> s' !! b = ([0; 13; 7]%Z : store int) !! b)
  /\ (exists s' : store int,
        assign_from_moved outside public_get_set 0 1 ([0; 13; 7]%Z : store int)
        = ok (impl.value 0) s'
        /\ length s' = 3
        /\ forall b, b <> 0 -> b <> 1 -> s' !! b = ([0; 13; 7]%Z : store int) !! b).
Proof.
  do 2 (split; [reflexivity|]).
  exact (assignment_changes_only_its_operands (T:=int) outside public_get_set 0 1
           0%Z 13%Z [0; 13; 7]%Z eq_refl eq_refl).
Defined.

(** X11. [data_storage::value] is for the owner alone: outside the owner
    [p.value()] does not compile, under any policy, const property or not.
    In the owner it gives the stored value, to be written through when the
    property is not const and read-only when it is; so the owner has a
    reference it can write through under every policy, [public_get]
    included. *)
Theorem value_is_for_the_owner {T : Type} `{regular T}
    (P : type) (p b : address) (old w : T) (s : store T) :
  s !! p = Some old ->
  s !! b = Some w ->
  (forall object_is_const, call_value outside P object_is_const p s = ill_formed)
  /\ call_value in_owner P false p s = ok (impl.value p) s
  /\ call_value in_owner P true p s = ok (impl.value_const p) s
  /\ (let* r := call_value in_owner P false p in assign_through r b) s
     = ok (impl.value p) (<[p:=w]> s)
  /\ (let* r := call_value in_owner P true p in assign_through r b) s = ill_formed.
Proof.
  intros Hp Hb. split; [|split; [|split; [|split]]].
  - intros oc. unfold call_value, evaluate. rewrite resolve_value. reflexivity.
  - rewrite call_value_runs. reflexivity.
  - rewrite call_value_runs. reflexivity.
  - unfold bind. rewrite call_value_runs. unfold ret.
    rewrite (assign_through_ok _ _ _ _ _ Hp Hb), copy_assign_copies. reflexivity.
  - unfold bind. rewrite call_value_runs. reflexivity.
Qed.

Lemma value_is_for_the_owner_witness :
  ([5; 12]%Z : store int) !! 0 = Some 5%Z
  /\ ([5; 12]%Z : store int) !! 1 = Some 12%Z
  /\ (forall object_is_const,
        call_value outside public_get object_is_const 0 ([5; 12]%Z : store int)
        = ill_formed)
  /\ call_value in_owner public_get false 0 ([5; 12]%Z : store int)
     = ok (impl.value 0) [5; 12]%Z
  /\ call_value in_owner public_get true 0 ([5; 12]%Z : store int)
     = ok (impl.value_const 0) [5; 12]%Z
  /\ (let* r := call_value in_owner public_get false 0 in assign_through r 1)
       ([5; 12]%Z : store int) = ok (impl.value 0) [12; 12]%Z
  /\ (let* r := call_value in_owner public_get true 0 in assign_through r 1)
       ([5; 12]%Z : store int) = ill_formed.
Proof.
  do 2 (split; [reflexivity|]).
  exact (value_is_for_the_owner (T:=int) public_get 0 1 5%Z 12%Z [5; 12]%Z
           eq_refl eq_refl).
Defined.

Section construction.
Context {T : Type} `{value_type T}.
Implicit Types (s : store T) (p q a b : address) (v w x old : T) (P : type) (c : context).

Lemma copy_of_ok c P q v s :
  s !! q = Some v ->
  copy_of c P q s = ok (impl.value (length s)) (s ++ [copy_construct v]).
Proof.
  intros Hq. unfold copy_of. rewrite construct_runs.
  apply (copy_constructor_ok _ _ _ Hq).
Qed.

Lemma moved_from_ok c P q v s :
  s !! q = Some v ->
  moved_from c P q s
  = ok (impl.value (length s))
       (<[q := snd (move_construct v)]> s ++ [fst (move_construct v)]).
Proof.
  intros Hq. unfold moved_from. rewrite construct_runs.
  apply (move_constructor_ok _ _ _ Hq).
Qed.

Lemma construct_from_value_ok c P x s :
  construct_from_value c P x s
  = ok (impl.value (S (length s)))
       (s ++ [snd (move_construct x); fst (move_construct x)]).
Proof.
  unfold construct_from_value. rewrite <- construct_parameter_ok.
  unfold bind, new_object. rewrite construct_runs. reflexivity.
Qed.

Lemma construct_default_ok c P s :
  construct_default c P s
  = ok (impl.value (S (length s)))
       (s ++ [snd (move_construct value_init); fst (move_construct value_init)]).
Proof.
  unfold construct_default. rewrite <- construct_parameter_ok.
  unfold bind, new_object. rewrite construct_runs. reflexivity.
Qed.

Lemma construct_from_ok c P q v s :
  s !! q = Some v ->
  construct_from c P q s
  = ok (impl.value (S (length s)))
       (s ++ [snd (move_construct (copy_construct v));
              fst (move_construct (copy_construct v))]).
Proof.
  intros Hq. rewrite <- construct_parameter_ok.
  unfold construct_from, copy_construct_object, bind.
  rewrite (load_ok _ _ _ Hq). unfold new_object. rewrite construct_runs. reflexivity.
Qed.
End construction.

(** X12. The constructors add nothing to what the value type does, whatever
    the value type. The copy constructor stores the copy the value type
    makes; the move constructor stores what the move constructor of the
    value type yields and leaves in the source what that leaves. The
    constructor from a value moves its by-value parameter into the property:
    the parameter is the value itself, a copy of the object given, or [T{}]
    when nothing is given. *)
Theorem constructors_delegate {T : Type} `{value_type T}
    (c : context) (P : type) (q : address) (v x : T) (s : store T) :
  s !! q = Some v ->
  copy_of c P q s = ok (impl.value (length s)) (s ++ [copy_construct v])
  /\ moved_from c P q s
     = ok (impl.value (length s))
          (<[q := snd (move_construct v)]> s ++ [fst (move_construct v)])
  /\ construct_from_value c P x s
     = ok (impl.value (S (length s)))
          (s ++ [snd (move_construct x); fst (move_construct x)])
  /\ construct_from c P q s
     = construct_from_value c P (copy_construct v) s
  /\ construct_default c P s = construct_from_value c P value_init s.
Proof.
  intros Hq. split; [|split; [|split; [|split]]].
  - apply (copy_of_ok _ _ _ _ _ Hq).
  - apply (moved_from_ok _ _ _ _ _ Hq).
  - apply construct_from_value_ok.
  - rewrite (construct_from_ok _ _ _ _ _ Hq), construct_from_value_ok. reflexivity.
  - rewrite construct_default_ok, construct_from_value_ok. reflexivity.
Qed.

Lemma constructors_delegate_witness :
  ([0; 13]%Z : store int) !! 1 = Some 13%Z
  /\ copy_of outside private_get_set 1 ([0; 13]%Z : store int)
     = ok (impl.value 2) [0; 13; 13]%Z
  /\ moved_from outside private_get_set 1 ([0; 13]%Z : store int)
     = ok (impl.value 2) [0; 13; 13]%Z
  /\ construct_from_value outside private_get_set 7%Z ([0; 13]%Z : store int)
     = ok (impl.value 3) [0; 13; 7; 7]%Z
  /\ construct_from outside private_get_set 1 ([0; 13]%Z : store int)
     = construct_from_value outside private_get_set 13%Z [0; 13]%Z
  /\ construct_default outside private_get_set ([0; 13]%Z : store int)
     = construct_from_value outside private_get_set 0%Z [0; 13]%Z.
Proof.
  split; [reflexivity|].
  exact (constructors_delegate (T:=int) outside private_get_set 1 13%Z 7%Z [0; 13]%Z
           eq_refl).
Defined.



(** X14. The policy decides who may use an accessor and never what the
    accessor does: for two callers and two policies that each allow the
    write, the write has the same outcome, and so has the read. The public
    and the private overload have the same body. *)
Theorem policy_changes_visibility_only {T : Type} `{value_type T}
    (c1 c2 : context) (P1 P2 : type) (p a : address) (s : store T) :
  allowed c1 P1 false (e_assign (arg_T lvalue)) = true ->
  allowed c2 P2 false (e_assign (arg_T lvalue)) = true ->
  allowed c1 P1 false e_to_T = true ->
  allowed c2 P2 false e_to_T = true ->
  write c1 P1 p a s = write c2 P2 p a s
  /\ read c1 P1 p s = read c2 P2 p s
  /\ (let* _ := write c1 P1 p a in read c1 P1 p) s
     = (let* _ := write c2 P2 p a in read c2 P2 p) s.
Proof.
  intros Hw1 Hw2 Hr1 Hr2. unfold write, bind.
  rewrite (write_runs _ _ _ _ _ Hw1), (write_runs _ _ _ _ _ Hw2).
  rewrite (read_runs _ _ _ Hr1), (read_runs _ _ _ Hr2).
  repeat split.
Qed.

Lemma policy_changes_visibility_only_witness :
  allowed in_owner private_get_set false (e_assign (arg_T lvalue)) = true
  /\ allowed outside public_get_set false (e_assign (arg_T lvalue)) = true
  /\ allowed in_owner private_get_set false e_to_T = true
  /\ allowed outside public_get_set false e_to_T = true
  /\ write in_owner private_get_set 0 1 ([5; 12]%Z : store int)
     = write outside public_get_set 0 1 [5; 12]%Z
  /\ read in_owner private_get_set 0 ([5; 12]%Z : store int)
     = read outside public_get_set 0 [5; 12]%Z
  /\ (let* _ := write in_owner private_get_set 0 1 in read in_owner private_get_set 0)
       ([5; 12]%Z : store int)
     = (let* _ := write outside public_get_set 0 1 in read outside public_get_set 0)
         [5; 12]%Z.
Proof.
  do 4 (split; [reflexivity|]).
  exact (policy_changes_visibility_only (T:=int) in_owner outside
           private_get_set public_get_set 0 1 [5; 12]%Z
           eq_refl eq_refl eq_refl eq_refl).
Defined.
